(** * Dining philosophers with a watchdog: DiningPhilosophersEdited.py

    A shallow embedding of the [Fork] and [Philosopher] classes, of
    [check_forks] (the watchdog) and of the table built by [main].

    The threads are modelled by an interleaving semantics: every thread has
    a control point, one step of a thread executes the statement at its
    control point, and a schedule picks the next thread.  [time.sleep] is a
    step without effect, so every interleaving is allowed.  The methods of
    [Fork] are also given as functions (one whole call, executed without
    interruption), built from the same primitive operations. *)

From stdpp Require Import base tactics option list numbers.
From Stdlib Require Import ZArith Lia.

Open Scope Z_scope.

(** ** Exceptions and results *)

(** The exceptions the modelled statements can raise:
    [threading.Lock.release] on an unlocked lock raises [RuntimeError],
    [random.randint] on an empty range raises [ValueError], a list index
    out of range raises [IndexError], [%] by zero [ZeroDivisionError]. *)
Inductive exn := RuntimeError | ValueError | IndexError | ZeroDivisionError.

Inductive result (A : Type) :=
| Ok (a : A)
| Raise (e : exn).
Arguments Ok {A} a.
Arguments Raise {A} e.

#[global] Instance result_bind : MBind result := λ A B k m,
  match m with
  | Ok a => k a
  | Raise e => Raise e
  end.

(** ** class Fork *)

(** [lock] is the state of the [threading.Lock] ([true]: locked). *)
Record Fork := mkFork {
  index : Z;
  lock : bool;
  picked_up : bool;
  owner : Z
}.

Definition set_lock (b : bool) (self : Fork) : Fork :=
  mkFork (index self) b (picked_up self) (owner self).
Definition set_picked_up (b : bool) (self : Fork) : Fork :=
  mkFork (index self) (lock self) b (owner self).
Definition set_owner (o : Z) (self : Fork) : Fork :=
  mkFork (index self) (lock self) (picked_up self) o.

(** [Fork.__init__] *)
Definition Fork_init (i : Z) : Fork := mkFork i false false (-1).

(** [self.lock.acquire()]: blocks while the lock is held ([None]: the
    caller cannot proceed), then takes it and returns [True]. *)
Definition lock_acquire (self : Fork) : option Fork :=
  if lock self then None else Some (set_lock true self).

(** [self.lock.release()]: [RuntimeError] on an unlocked lock. *)
Definition lock_release (self : Fork) : result Fork :=
  if lock self then Ok (set_lock false self) else Raise RuntimeError.

(** [Fork.__call__(owner)], one uninterrupted call. *)
Definition Fork_call (o : Z) (self : Fork) : option Fork :=
  self ← lock_acquire self;
  let self := set_owner o self in
  let self := set_picked_up true self in
  Some self.

(** [Fork.__enter__] *)
Definition Fork_enter (self : Fork) : Fork := self.

(** [Fork.__exit__], one uninterrupted call. *)
Definition Fork_exit (self : Fork) : result Fork :=
  if picked_up self then
    self ← lock_release self;
    let self := set_picked_up false self in
    let self := set_owner (-1) self in
    Ok self
  else Ok self.

(** The statements of [__call__] and [__exit__], one at a time. *)
Inductive call_pc := CAcquire | CSetOwner | CSetPicked.
Inductive exit_pc := XTest | XRelease | XClearPicked | XClearOwner.

(** One statement of [__call__]; the result is the fork and the next
    statement ([None]: the call returns). *)
Definition call_step (k : call_pc) (o : Z) (self : Fork)
  : option (Fork * option call_pc) :=
  match k with
  | CAcquire => self ← lock_acquire self; Some (self, Some CSetOwner)
  | CSetOwner => Some (set_owner o self, Some CSetPicked)
  | CSetPicked => Some (set_picked_up true self, None)
  end.

(** One statement of [__exit__]. *)
Definition exit_step (k : exit_pc) (self : Fork)
  : result (Fork * option exit_pc) :=
  match k with
  | XTest => Ok (self, if picked_up self then Some XRelease else None)
  | XRelease => self ← lock_release self; Ok (self, Some XClearPicked)
  | XClearPicked => Ok (set_picked_up false self, Some XClearOwner)
  | XClearOwner => Ok (set_owner (-1) self, None)
  end.

(** ** class Philosopher *)

(** [left_fork] and [right_fork] are references to shared [Fork] objects:
    positions in the list of forks of the state. *)
Record Philosopher := mkPhilosopher {
  p_index : Z;
  left_fork : nat;
  right_fork : nat;
  spaghetti : Z;
  eating : bool
}.

(** [Philosopher.__init__] *)
Definition Philosopher_init (i : Z) (l r : nat) (m : Z) : Philosopher :=
  mkPhilosopher i l r m false.

Definition set_spaghetti (n : Z) (self : Philosopher) : Philosopher :=
  mkPhilosopher (p_index self) (left_fork self) (right_fork self) n (eating self).
Definition set_eating (b : bool) (self : Philosopher) : Philosopher :=
  mkPhilosopher (p_index self) (left_fork self) (right_fork self) (spaghetti self) b.

Inductive side := L | R.

Definition fork_of (self : Philosopher) (s : side) : nat :=
  match s with
  | L => left_fork self
  | R => right_fork self
  end.

(** The control points of [run] with [think] and [eat] inlined.  [PCall s k]
    is statement [k] of [self.left_fork(self.index)] (line 55) or of
    [self.right_fork(self.index)] (line 57); [PExit s exc k] is statement
    [k] of the [__exit__] that ends the [with] block of side [s], [exc]
    being the exception that left the block, if any. *)
Inductive phil_pc :=
| PLoop                                   (* while self.spaghetti > 0 *)
| PThink                                  (* self.think() *)
| PCall (s : side) (k : call_pc)
| PSleepLeft                              (* line 56: time.sleep *)
| PDec                                    (* line 58: self.spaghetti -= 1 *)
| PEatOn                                  (* line 59: self.eating = True *)
| PSleepEat                               (* line 60: time.sleep *)
| PEatOff                                 (* line 61: self.eating = False *)
| PExit (s : side) (exc : option exn) (k : exit_pc)
| PDone                                   (* run has returned *)
| PCrashed (e : exn).                     (* run was left by an exception *)

(** ** The watchdog: check_forks *)

Inductive wd_pc :=
| WSample                                 (* line 177: sum(...) *)
| WTest (eating_philosophers : Z)         (* line 181 *)
| WHealthy                                (* line 182: system_time = 0 *)
| WSleep                                  (* line 184: time.sleep(1) *)
| WIncr                                   (* line 185: system_time += 1 *)
| WCompare                                (* line 186: if system_time > 15 *)
| WRandint                                (* line 187 *)
| WIndex (fork_index : Z)                 (* line 188: forks[fork_index] *)
| WExit (fork : nat) (k : exit_pc)        (* line 189: fork.__exit__(...) *)
| WReset                                  (* line 190: system_time = 0 *)
| WCrashed (e : exn).

Record Watchdog := mkWatchdog {
  system_time : Z;
  wpc : wd_pc
}.

(** ** Python's list indexing, [%], [range] and [random.randint] *)

(** The position that [l[i]] reads in a list of length [len]. *)
Definition py_pos (len : nat) (i : Z) : result nat :=
  if decide (0 ≤ i < Z.of_nat len) then Ok (Z.to_nat i)
  else if decide (- Z.of_nat len ≤ i < 0) then Ok (Z.to_nat (Z.of_nat len + i))
  else Raise IndexError.

Definition py_mod (a b : Z) : result Z :=
  if decide (b = 0) then Raise ZeroDivisionError else Ok (a `mod` b).

Definition range (n : Z) : list Z := seqZ 0 n.

(** The equally likely outcomes of [random.randint(a, b)]. *)
Definition randint (a b : Z) : result (list Z) :=
  if decide (a ≤ b) then Ok (seqZ a (b - a + 1)) else Raise ValueError.

(** A list comprehension whose element expression can raise. *)
Fixpoint comprehension {A B} (f : A → result B) (l : list A) : result (list B) :=
  match l with
  | [] => Ok []
  | x :: l => y ← f x; ys ← comprehension f l; Ok (y :: ys)
  end.

(** ** The state of the program *)

Record State := mkState {
  forks : list Fork;
  philosophers : list (Philosopher * phil_pc);
  watchdog : Watchdog
}.

Definition set_forks (fs : list Fork) (σ : State) : State :=
  mkState fs (philosophers σ) (watchdog σ).
Definition set_philosopher (i : nat) (p : Philosopher * phil_pc) (σ : State) : State :=
  mkState (forks σ) (<[i := p]> (philosophers σ)) (watchdog σ).
Definition set_watchdog (w : Watchdog) (σ : State) : State :=
  mkState (forks σ) (philosophers σ) w.

(** The table of [main], for [n] philosophers with [m] units each. *)
Definition main_table (n m : Z) : result (list Fork * list Philosopher) :=
  let forks := Fork_init <$> range n in
  philosophers ← comprehension (λ i,
      l ← py_pos (length forks) i;
      j ← py_mod (i + 1) n;
      r ← py_pos (length forks) j;
      Ok (Philosopher_init i l r m)) (range n);
  Ok (forks, philosophers).

(** The state once the threads are started: every philosopher at the head
    of its loop, the watchdog at its first sample with [system_time = 0]. *)
Definition start (t : list Fork * list Philosopher) : State :=
  mkState t.1 ((λ p, (p, PLoop)) <$> t.2) (mkWatchdog 0 WSample).

Definition main_state (n m : Z) : result State :=
  t ← main_table n m; Ok (start t).

(** [main]: [n = 5], [m = 7]. *)
Definition main : result State := main_state 5 7.

(** ** One step of a philosopher thread *)

(** Where [eat] continues when [__call__] of side [s] has returned
    ([__enter__] returns [self] and does nothing else). *)
Definition after_call (s : side) : phil_pc :=
  match s with
  | L => PSleepLeft
  | R => PDec
  end.

(** Where the thread continues when [__exit__] of side [s] has returned:
    [__exit__] returns [None], so an exception [exc] that left the block
    goes on propagating. *)
Definition after_exit (s : side) (exc : option exn) : phil_pc :=
  match s with
  | R => PExit L exc XTest
  | L => match exc with
         | None => PLoop
         | Some e => PCrashed e
         end
  end.

(** Where the thread continues when [__exit__] of side [s] raises [e]. *)
Definition exit_raised (s : side) (e : exn) : phil_pc :=
  match s with
  | R => PExit L (Some e) XTest
  | L => PCrashed e
  end.

(** Thread [i] executes the statement at its control point.  [None]: the
    thread cannot move (it is blocked in [lock.acquire()], or has ended). *)
Definition phil_step (i : nat) (σ : State) : option State :=
  '(self, pc) ← philosophers σ !! i;
  match pc with
  | PLoop =>
      Some (set_philosopher i
              (self, if decide (spaghetti self > 0) then PThink else PDone) σ)
  | PThink => Some (set_philosopher i (self, PCall L CAcquire) σ)
  | PCall s k =>
      fork ← forks σ !! fork_of self s;
      '(fork, k') ← call_step k (p_index self) fork;
      Some (set_philosopher i
              (self, match k' with
                     | Some k' => PCall s k'
                     | None => after_call s
                     end)
              (set_forks (<[fork_of self s := fork]> (forks σ)) σ))
  | PSleepLeft => Some (set_philosopher i (self, PCall R CAcquire) σ)
  | PDec =>
      Some (set_philosopher i (set_spaghetti (spaghetti self - 1) self, PEatOn) σ)
  | PEatOn => Some (set_philosopher i (set_eating true self, PSleepEat) σ)
  | PSleepEat => Some (set_philosopher i (self, PEatOff) σ)
  | PEatOff =>
      Some (set_philosopher i (set_eating false self, PExit R None XTest) σ)
  | PExit s exc k =>
      fork ← forks σ !! fork_of self s;
      match exit_step k fork with
      | Ok (fork, k') =>
          Some (set_philosopher i
                  (self, match k' with
                         | Some k' => PExit s exc k'
                         | None => after_exit s exc
                         end)
                  (set_forks (<[fork_of self s := fork]> (forks σ)) σ))
      | Raise e => Some (set_philosopher i (self, exit_raised s e) σ)
      end
  | PDone | PCrashed _ => None
  end.

(** ** One step of the watchdog thread *)

(** Python's [sum]: from 0, left to right. *)
Definition py_sum (l : list Z) : Z := foldl Z.add 0 l.

(** [sum(philosopher.eating for philosopher in philosophers)] *)
Definition count_eating (ps : list (Philosopher * phil_pc)) : Z :=
  py_sum ((λ p, Z.b2z (eating p.1)) <$> ps).

Definition set_wpc (pc : wd_pc) (w : Watchdog) : Watchdog :=
  mkWatchdog (system_time w) pc.

(** The watchdog executes the statement at its control point; [r] is the
    value drawn by [random.randint] when that statement is line 187.
    [None]: the thread has ended, or [r] is not a possible draw. *)
Definition wd_step (r : Z) (σ : State) : option State :=
  let w := watchdog σ in
  match wpc w with
  | WSample =>
      Some (set_watchdog (set_wpc (WTest (count_eating (philosophers σ))) w) σ)
  | WTest c =>
      Some (set_watchdog
              (set_wpc (if decide (c = 1 ∨ c = 2) then WHealthy else WSleep) w) σ)
  | WHealthy => Some (set_watchdog (mkWatchdog 0 WSample) σ)
  | WSleep => Some (set_watchdog (set_wpc WIncr w) σ)
  | WIncr => Some (set_watchdog (mkWatchdog (system_time w + 1) WCompare) σ)
  | WCompare =>
      Some (set_watchdog
              (set_wpc (if decide (system_time w > 15) then WRandint else WSample) w) σ)
  | WRandint =>
      match randint 0 (Z.of_nat (length (forks σ)) - 1) with
      | Ok draws =>
          if decide (r ∈ draws)
          then Some (set_watchdog (set_wpc (WIndex r) w) σ)
          else None
      | Raise e => Some (set_watchdog (set_wpc (WCrashed e) w) σ)
      end
  | WIndex fork_index =>
      match py_pos (length (forks σ)) fork_index with
      | Ok fork => Some (set_watchdog (set_wpc (WExit fork XTest) w) σ)
      | Raise e => Some (set_watchdog (set_wpc (WCrashed e) w) σ)
      end
  | WExit j k =>
      fork ← forks σ !! j;
      match exit_step k fork with
      | Ok (fork, k') =>
          Some (set_watchdog
                  (set_wpc (match k' with
                            | Some k' => WExit j k'
                            | None => WReset
                            end) w)
                  (set_forks (<[j := fork]> (forks σ)) σ))
      | Raise e => Some (set_watchdog (set_wpc (WCrashed e) w) σ)
      end
  | WReset => Some (set_watchdog (mkWatchdog 0 WSample) σ)
  | WCrashed _ => None
  end.

(** ** Interleaved runs *)

Inductive tid := TPhil (i : nat) | TWatchdog.

Definition step (t : tid) (r : Z) (σ : State) : option State :=
  match t with
  | TPhil i => phil_step i σ
  | TWatchdog => wd_step r σ
  end.

(** A schedule names, for every step, the thread that moves and the value
    [random.randint] returns should the step draw one. *)
Definition schedule := list (tid * Z).

Fixpoint run (sched : schedule) (σ : State) : option State :=
  match sched with
  | [] => Some σ
  | (t, r) :: sched => σ' ← step t r σ; run sched σ'
  end.

(** The statement a step of thread [t] executes in [σ]. *)
Inductive label :=
| LPhil (i : nat) (pc : phil_pc)
| LWatchdog (pc : wd_pc).

Definition label_of (t : tid) (σ : State) : option label :=
  match t with
  | TPhil i => p ← philosophers σ !! i; Some (LPhil i p.2)
  | TWatchdog => Some (LWatchdog (wpc (watchdog σ)))
  end.

(** The statements executed along a run, in order. *)
Fixpoint trace (sched : schedule) (σ : State) : list label :=
  match sched with
  | [] => []
  | (t, r) :: sched =>
      match label_of t σ, step t r σ with
      | Some l, Some σ' => l :: trace sched σ'
      | _, _ => []
      end
  end.

(** ** Whole calls and whole iterations *)

(** A sequence of calls on one fork by a single caller.  A call of
    [__call__] on a held fork never returns: the sequence stops there. *)
Inductive fork_op := OpCall (o : Z) | OpExit.

Inductive status := Returned | Blocks | Raises (e : exn).

Definition apply_op (op : fork_op) (self : Fork) : Fork * status :=
  match op with
  | OpCall o =>
      match Fork_call o self with
      | Some self' => (self', Returned)
      | None => (self, Blocks)
      end
  | OpExit =>
      match Fork_exit self with
      | Ok self' => (self', Returned)
      | Raise e => (self, Raises e)
      end
  end.

Fixpoint run_ops (ops : list fork_op) (self : Fork) : Fork * status :=
  match ops with
  | [] => (self, Returned)
  | op :: ops =>
      match apply_op op self with
      | (self', Returned) => run_ops ops self'
      | stopped => stopped
      end
  end.

(** [locked == false ⇒ owner == none] *)
Definition unlocked_unowned (self : Fork) : Prop :=
  picked_up self = false → owner self = -1.

(** The lock is held whenever the fork is marked as picked up. *)
Definition lock_consistent (self : Fork) : Prop :=
  picked_up self = true → lock self = true.

(** One pass through the body of [while True] in [check_forks], not
    interleaved with other threads: the statements executed, and the state
    when control is back at line 177 or the thread has ended. *)
Fixpoint wd_iter (fuel : nat) (r : Z) (σ : State) : option (list wd_pc * State) :=
  match fuel with
  | O => None
  | S fuel =>
      σ' ← wd_step r σ;
      match wpc (watchdog σ') with
      | WSample | WCrashed _ => Some ([wpc (watchdog σ)], σ')
      | _ => '(tr, σ'') ← wd_iter fuel r σ'; Some (wpc (watchdog σ) :: tr, σ'')
      end
  end.

Definition check_forks_iter (r : Z) (σ : State) : option (list wd_pc * State) :=
  wd_iter 12 r σ.
Arguments check_forks_iter : simpl never.

(** The forced releases in a list of executed statements: the entries of
    [fork.__exit__] (line 189). *)
Definition is_forced_release (pc : wd_pc) : bool :=
  match pc with
  | WExit _ XTest => true
  | _ => false
  end.

Definition forced_releases (tr : list wd_pc) : list wd_pc :=
  filter (λ pc, is_forced_release pc = true) tr.

(** The sample is healthy: exactly 1 or 2 philosophers eat. *)
Definition healthy (σ : State) : Prop :=
  count_eating (philosophers σ) = 1 ∨ count_eating (philosophers σ) = 2.

#[global] Instance healthy_dec σ : Decision (healthy σ).
Proof. unfold healthy. apply _. Defined.

(** ** Definitions used by the statements *)

(** The table [main] builds for any [n]: philosopher [i] is wired to the
    forks [i] and [(i + 1) % n]. *)
Definition ring (n m : Z) : list Fork * list Philosopher :=
  (Fork_init <$> range n,
   (λ i, Philosopher_init i (Z.to_nat i) (Z.to_nat ((i + 1) `mod` n)) m) <$> range n).

(** Two states agree on what the watchdog reads of the philosophers: their
    number and their [eating] flags. *)
Definition same_eating (σ1 σ2 : State) : Prop :=
  (λ p, eating p.1) <$> philosophers σ1 = (λ p, eating p.1) <$> philosophers σ2.

Definition continuing (σ : State) : Prop :=
  match wpc (watchdog σ) with
  | WSample | WCrashed _ => False
  | _ => True
  end.

(** The statements of an iteration, by its outcome. *)
Definition healthy_trace (c : Z) : list wd_pc := [WSample; WTest c; WHealthy].
Definition counting_trace (c : Z) : list wd_pc :=
  [WSample; WTest c; WSleep; WIncr; WCompare].
Definition release_trace (c r : Z) (held : bool) : list wd_pc :=
  counting_trace c ++ [WRandint; WIndex r; WExit (Z.to_nat r) XTest] ++
  (if held
   then [WExit (Z.to_nat r) XRelease; WExit (Z.to_nat r) XClearPicked;
         WExit (Z.to_nat r) XClearOwner]
   else []) ++ [WReset].

(** A tick of the watchdog: the value [random.randint] would return, and
    the philosophers and forks as the other threads have left them when
    the iteration runs. *)
Definition tick : Type := Z * list (Philosopher * phil_pc) * list Fork.

(** Consecutive iterations [iter] of a thread, from the watchdog [w]: for
    every tick the statements executed and the state reached, and the
    watchdog at the end. *)
Fixpoint iterate (iter : Z → State → option (list wd_pc * State))
    (w : Watchdog) (ticks : list tick)
  : option (list (list wd_pc * State) * Watchdog) :=
  match ticks with
  | [] => Some ([], w)
  | (r, ps, fs) :: ticks =>
      '(tr, σ') ← iter r (mkState fs ps w);
      '(outs, w') ← iterate iter (watchdog σ') ticks;
      Some ((tr, σ') :: outs, w')
  end.

(** Consecutive iterations of the watchdog, from the sample of line 177. *)
Definition watch (w : Watchdog) (ticks : list tick)
  : option (list (list wd_pc * State) * Watchdog) :=
  iterate check_forks_iter w ticks.

(** The sample of the tick is outside {1, 2}. *)
Definition stalled (x : tick) : Prop :=
  ¬ (count_eating x.1.2 = 1 ∨ count_eating x.1.2 = 2).

(** The iteration of tick [x] has released nothing and changed nothing of
    the forks and philosophers. *)
Definition quiet (x : tick) (out : list wd_pc * State) : Prop :=
  forced_releases out.1 = [] ∧ forks out.2 = x.2 ∧ philosophers out.2 = x.1.2.

(** Some fork's [picked_up] goes from [True] to [False]. *)
Definition some_fork_released (fs fs' : list Fork) : Prop :=
  ∃ j f f', fs !! j = Some f ∧ fs' !! j = Some f' ∧
            picked_up f = true ∧ picked_up f' = false.

#[global] Instance tid_eq_dec : EqDecision tid.
Proof. solve_decision. Defined.

(** The control point of thread [i]. *)
Definition pc_of (i : nat) (σ : State) : option phil_pc :=
  snd <$> philosophers σ !! i.

(** The number of steps of a run that satisfy [P]. *)
Fixpoint count_steps (P : tid → State → State → bool) (sched : schedule)
    (σ : State) : nat :=
  match sched with
  | [] => 0%nat
  | (t, r) :: sched =>
      match step t r σ with
      | Some σ' => ((if P t σ σ' then 1 else 0) + count_steps P sched σ')%nat
      | None => 0%nat
      end
  end.

(** The step is thread [i] executing [self.spaghetti -= 1]. *)
Definition decrements (i : nat) (t : tid) (σ σ' : State) : bool :=
  bool_decide (t = TPhil i) &&
  match pc_of i σ with
  | Some PDec => true
  | _ => false
  end.

(** The control points inside [eat]. *)
Definition in_eat (pc : phil_pc) : bool :=
  match pc with
  | PCall _ _ | PSleepLeft | PDec | PEatOn | PSleepEat | PEatOff
  | PExit _ _ _ => true
  | _ => false
  end.

(** The step is thread [i] returning from [eat] to the head of the loop. *)
Definition completes_eat (i : nat) (t : tid) (σ σ' : State) : bool :=
  bool_decide (t = TPhil i) &&
  match pc_of i σ, pc_of i σ' with
  | Some pc, Some PLoop => in_eat pc
  | _, _ => false
  end.

(** 1 at the control points of a call of [eat] that has executed its
    decrement and has not returned (among them the end by an exception,
    which only an [__exit__] of that call can raise), 0 elsewhere. *)
Definition after_dec (pc : phil_pc) : nat :=
  match pc with
  | PEatOn | PSleepEat | PEatOff | PExit _ _ _ | PCrashed _ => 1%nat
  | _ => 0%nat
  end.

(** The control points between the loop test and the decrement. *)
Definition before_dec (pc : phil_pc) : bool :=
  match pc with
  | PThink | PCall _ _ | PSleepLeft | PDec => true
  | _ => false
  end.

(** What a step of a philosopher thread does to its own object and
    control point. *)
Definition own_step (self : Philosopher) (pc : phil_pc)
    (self' : Philosopher) (pc' : phil_pc) : Prop :=
  match pc with
  | PLoop =>
      self' = self ∧ pc' = if decide (spaghetti self > 0) then PThink else PDone
  | PThink => self' = self ∧ pc' = PCall L CAcquire
  | PCall s CAcquire => self' = self ∧ pc' = PCall s CSetOwner
  | PCall s CSetOwner => self' = self ∧ pc' = PCall s CSetPicked
  | PCall s CSetPicked => self' = self ∧ pc' = after_call s
  | PSleepLeft => self' = self ∧ pc' = PCall R CAcquire
  | PDec => self' = set_spaghetti (spaghetti self - 1) self ∧ pc' = PEatOn
  | PEatOn => self' = set_eating true self ∧ pc' = PSleepEat
  | PSleepEat => self' = self ∧ pc' = PEatOff
  | PEatOff => self' = set_eating false self ∧ pc' = PExit R None XTest
  | PExit s exc k =>
      self' = self ∧
      (pc' = after_exit s exc ∨ (∃ k', pc' = PExit s exc k') ∨
       ∃ e, pc' = exit_raised s e)
  | PDone | PCrashed _ => False
  end.

(** The invariant of the consumption of thread [i]: [d] decrements and [c]
    completed calls of [eat] so far, from [m] units. *)
Definition consumption_inv (m : Z) (d c : nat) (x : Philosopher * phil_pc) : Prop :=
  spaghetti x.1 = m - Z.of_nat d ∧
  d = (c + after_dec x.2)%nat ∧
  0 ≤ spaghetti x.1 ∧
  (before_dec x.2 = true → 0 < spaghetti x.1) ∧
  (x.2 = PDone → spaghetti x.1 = 0).

(** Thread [i] is between having written itself as owner of its fork of
    side [s] and setting [eating] back to [False]. *)
Definition holds (s : side) (pc : phil_pc) : bool :=
  match pc with
  | PCall L CSetPicked | PSleepLeft | PCall R CAcquire | PCall R CSetOwner =>
      match s with L => true | R => false end
  | PCall R CSetPicked | PDec | PEatOn | PSleepEat | PEatOff => true
  | _ => false
  end.

(** The [owner] of the fork at position [j]. *)
Definition owner_at (σ : State) (j : nat) : option Z := owner <$> forks σ !! j.

(** From [σ] to [σ'] nobody has written the [owner] of a fork that thread
    [i] holds. *)
Definition keeps_owner (i : nat) (σ σ' : State) : bool :=
  match philosophers σ !! i with
  | Some (self, pc) =>
      forallb (λ s, implb (holds s pc)
                      (bool_decide (owner_at σ' (fork_of self s) =
                                    owner_at σ (fork_of self s)))) [L; R]
  | None => true
  end.

(** Along the run, every step of another thread keeps the owners of the
    forks that thread [i] holds. *)
Fixpoint undisturbed (i : nat) (sched : schedule) (σ : State) : bool :=
  match sched with
  | [] => true
  | (t, r) :: sched =>
      match step t r σ with
      | Some σ' =>
          (bool_decide (t = TPhil i) || keeps_owner i σ σ') &&
          undisturbed i sched σ'
      | None => true
      end
  end.

(** [eating] is true only between lines 59 and 61. *)
Definition eating_inside (x : Philosopher * phil_pc) : Prop :=
  eating x.1 = true → x.2 = PSleepEat ∨ x.2 = PEatOff.

(** The forks that the thread holds have it as owner. *)
Definition owns_held (σ : State) (x : Philosopher * phil_pc) : Prop :=
  ∀ s, holds s x.2 = true → owner_at σ (fork_of x.1 s) = Some (p_index x.1).

(** [k] consecutive steps of thread [i]. *)
Definition solo (i : nat) (k : nat) : schedule := replicate k (TPhil i, 0).

(** The run of [sched] from [σ] executes the statements [tr] and ends in
    [σ']. *)
Definition runs (σ : State) (sched : schedule) (tr : list label) (σ' : State) : Prop :=
  run sched σ = Some σ' ∧ trace sched σ = tr.

(** The statements of one call of [eat] that nothing interferes with. *)
Definition eat_statements : list phil_pc :=
  [PCall L CAcquire; PCall L CSetOwner; PCall L CSetPicked;
   PSleepLeft;
   PCall R CAcquire; PCall R CSetOwner; PCall R CSetPicked;
   PDec; PEatOn; PSleepEat; PEatOff;
   PExit R None XTest; PExit R None XRelease;
   PExit R None XClearPicked; PExit R None XClearOwner;
   PExit L None XTest; PExit L None XRelease;
   PExit L None XClearPicked; PExit L None XClearOwner].

(** The steps of a philosopher at the grain of the description of [eat]:
    a fork is acquired by [lock.acquire()] and released by
    [lock.release()]. *)
Inductive action :=
| Acquire (s : side)
| SetEating (b : bool)
| Decrement
| Suspend
| Release (s : side).

Definition action_of (l : label) : option action :=
  match l with
  | LPhil _ (PCall s CAcquire) => Some (Acquire s)
  | LPhil _ PEatOn => Some (SetEating true)
  | LPhil _ PEatOff => Some (SetEating false)
  | LPhil _ PDec => Some Decrement
  | LPhil _ (PThink | PSleepLeft | PSleepEat) => Some Suspend
  | LPhil _ (PExit s _ XRelease) => Some (Release s)
  | _ => None
  end.

Definition actions (tr : list label) : list action := omap action_of tr.

(** The order in which [eat] is written. *)
Definition eat_order : list action :=
  [Acquire L; Suspend; Acquire R; Decrement; SetEating true; Suspend;
   SetEating false; Release R; Release L].

(** The order as the specification words it: left, right, [eating = true],
    decrement, one suspension, [eating = false], release right, release
    left. *)
Definition specified_eat_order : list action :=
  [Acquire L; Acquire R; SetEating true; Decrement; Suspend;
   SetEating false; Release R; Release L].

(** The table of [main], started. *)
Definition table : State := start (ring 5 7).

(** All five philosophers think and take their left fork; blocked on
    their right forks, none eats for 16 samples and the watchdog
    releases fork 0; philosophers 4, 3, 2 and 1 then eat in turn and
    return to the head of their loops; at last philosopher 0 gets its
    right fork and sets [eating]. *)
Definition deadlock : schedule :=
  solo 0 6 ++ solo 1 6 ++ solo 2 6 ++ solo 3 6 ++ solo 4 6.

Definition deadlock_then_release : schedule :=
  deadlock ++ replicate 87 (TWatchdog, 0) ++
  solo 4 15 ++ solo 3 15 ++ solo 2 15 ++ solo 1 15 ++ solo 0 5.

(** Every philosopher in turn runs its seven cycles and leaves [run]. *)
Definition all_meals : schedule :=
  solo 0 148 ++ solo 1 148 ++ solo 2 148 ++ solo 3 148 ++ solo 4 148.

(** The state after [deadlock]: every philosopher holds its left fork and
    waits for its right one. *)
Definition deadlocked : State :=
  mkState
    [mkFork 0 true true 0; mkFork 1 true true 1; mkFork 2 true true 2;
     mkFork 3 true true 3; mkFork 4 true true 4]
    [(mkPhilosopher 0 0 1 7 false, PCall R CAcquire);
     (mkPhilosopher 1 1 2 7 false, PCall R CAcquire);
     (mkPhilosopher 2 2 3 7 false, PCall R CAcquire);
     (mkPhilosopher 3 3 4 7 false, PCall R CAcquire);
     (mkPhilosopher 4 4 0 7 false, PCall R CAcquire)]
    (mkWatchdog 0 WSample).

(** A fork of [σ'] is the fork of [σ] at the same position, or that fork
    with its lock released, [picked_up] cleared or [owner] reset. *)
Definition only_released (f f' : Fork) : Prop :=
  index f' = index f ∧
  (lock f' = true → lock f = true) ∧
  (picked_up f' = true → picked_up f = true) ∧
  (owner f' = owner f ∨ owner f' = -1).

(** The philosophers that eat. *)
Definition eaters (ps : list (Philosopher * phil_pc)) : list (Philosopher * phil_pc) :=
  filter (λ p, eating p.1 = true) ps.

(** What the statements of [check_forks] keep true of the stall counter. *)
Definition counter_inv (w : Watchdog) : Prop :=
  match wpc w with
  | WSample | WTest _ | WHealthy | WSleep | WIncr => 0 ≤ system_time w ≤ 15
  | WCompare => 1 ≤ system_time w ≤ 16
  | WRandint | WIndex _ | WExit _ _ | WReset | WCrashed _ => system_time w = 16
  end.

(** Every philosopher in turn thinks and takes its left fork. *)
Definition take_left_all (n : nat) : schedule :=
  flat_map (λ i, solo i 6) (seq 0 n).

(** The fork at position [j] of the table while philosopher [j] holds it. *)
Definition held_by_own (j : nat) : Fork :=
  mkFork (Z.of_nat j) true true (Z.of_nat j).

(** Philosopher [j] of the ring of [n] with [m] units. *)
Definition seat (n m : Z) (j : nat) : Philosopher :=
  mkPhilosopher (Z.of_nat j) j (Z.to_nat ((Z.of_nat j + 1) `mod` n)) m false.

(** The table of [n] after the first [k] philosophers have taken their
    left forks. *)
Definition left_taken (n m : Z) (k : nat) (σ : State) : Prop :=
  length (forks σ) = Z.to_nat n ∧
  length (philosophers σ) = Z.to_nat n ∧
  ∀ j, (j < Z.to_nat n)%nat →
    forks σ !! j = Some (if decide (j < k)%nat then held_by_own j
                         else Fork_init (Z.of_nat j)) ∧
    philosophers σ !! j = Some (seat n m j, if decide (j < k)%nat
                                            then PCall R CAcquire else PLoop).

(** A fork as [__init__] and [__exit__] leave it. *)
Definition free (f : Fork) : Prop :=
  lock f = false ∧ picked_up f = false ∧ owner f = -1.

(** Thread at [pc] has taken the lock of its fork of side [s] and has not
    passed the [lock.release()] of that fork. *)
Definition in_lock (s : side) (pc : phil_pc) : bool :=
  match pc with
  | PCall L (CSetOwner | CSetPicked) | PSleepLeft | PCall R CAcquire
  | PExit L _ (XTest | XRelease) | PExit R _ (XClearPicked | XClearOwner) =>
      match s with L => true | R => false end
  | PCall R (CSetOwner | CSetPicked) | PDec | PEatOn | PSleepEat | PEatOff
  | PExit R _ (XTest | XRelease) => true
  | _ => false
  end.

(** The schedule has no step of the watchdog. *)
Definition no_watchdog (sched : schedule) : bool :=
  forallb (λ x, match x.1 with TPhil _ => true | TWatchdog => false end) sched.

(** The lock of every fork a philosopher is inside of is held. *)
Definition locks_held (σ : State) : Prop :=
  ∀ i self pc s f,
    philosophers σ !! i = Some (self, pc) → in_lock s pc = true →
    forks σ !! fork_of self s = Some f → lock f = true.

(** No two philosophers are inside the lock of the same fork. *)
Definition exclusive (σ : State) : Prop :=
  ∀ i1 i2 self1 pc1 self2 pc2 s1 s2,
    i1 ≠ i2 →
    philosophers σ !! i1 = Some (self1, pc1) →
    philosophers σ !! i2 = Some (self2, pc2) →
    in_lock s1 pc1 = true → in_lock s2 pc2 = true →
    fork_of self1 s1 ≠ fork_of self2 s2.

(** A philosopher inside both locks has two different forks. *)
Definition two_forks (σ : State) : Prop :=
  ∀ i self pc,
    philosophers σ !! i = Some (self, pc) → in_lock R pc = true →
    left_fork self ≠ right_fork self.

(** No philosopher has met an exception. *)
Definition unexceptional (pc : phil_pc) : Prop :=
  match pc with
  | PCrashed _ | PExit _ (Some _) _ => False
  | _ => True
  end.

Definition no_exception (σ : State) : Prop :=
  ∀ i self pc, philosophers σ !! i = Some (self, pc) → unexceptional pc.

(** The run of [deadlock_then_release], after which philosopher 4 thinks
    again, takes its forks and sets [eating]. *)
Definition neighbours_eat : schedule := deadlock_then_release ++ solo 4 11.

(** Every entry of [σ'] comes from an entry of [σ] with the same forks,
    inside the same locks or fewer, except that thread [i] may have
    entered the lock of side [s0]. *)
Definition comes_from (σ σ' : State) (E : nat → side → Prop) : Prop :=
  ∀ j self' pc', philosophers σ' !! j = Some (self', pc') →
    ∃ self pc, philosophers σ !! j = Some (self, pc) ∧
      (∀ s, fork_of self' s = fork_of self s) ∧
      (∀ s, in_lock s pc' = true → in_lock s pc = true ∨ E j s).

Definition mutex_inv (σ : State) : Prop :=
  locks_held σ ∧ exclusive σ ∧ two_forks σ ∧ no_exception σ.

(** The thread at [pc] is past the test of a [__call__] or [__exit__] on
    the fork at position [j], before its last write of that fork. *)
Definition writes_fork (j : nat) (self : Philosopher) (pc : phil_pc) : bool :=
  match pc with
  | PCall s (CSetOwner | CSetPicked)
  | PExit s _ (XRelease | XClearPicked | XClearOwner) =>
      bool_decide (fork_of self s = j)
  | _ => false
  end.

Definition wd_writes_fork (j : nat) (w : Watchdog) : bool :=
  match wpc w with
  | WExit j' (XRelease | XClearPicked | XClearOwner) => bool_decide (j' = j)
  | _ => false
  end.

(** The lock of fork [j] is held, the fork is not marked as picked up, and
    no thread is in the middle of writing it. *)
Definition lost (j : nat) (σ : State) : Prop :=
  (∃ f, forks σ !! j = Some f ∧ lock f = true ∧ picked_up f = false) ∧
  (∀ i self pc, philosophers σ !! i = Some (self, pc) →
     writes_fork j self pc = false) ∧
  wd_writes_fork j (watchdog σ) = false.

(** Philosopher 0 eats and releases the lock of its right fork, fork 1;
    philosopher 1, which waited for it as its left fork, takes the lock
    and writes [owner] and [picked_up]; philosopher 0 then finishes its
    [__exit__], clearing both fields, and releases its left fork;
    philosopher 1 eats, and its [__exit__] of fork 1 finds [picked_up]
    false. *)
Definition release_race : schedule :=
  solo 0 15 ++ solo 1 5 ++ solo 0 6 ++ solo 1 13.

(** Philosopher 0 reaches [lock.release()] of its right fork, and the
    watchdog's forced release of fork 1 gets there first. *)
Definition release_crash : schedule :=
  solo 0 14 ++ replicate 84 (TWatchdog, 1).

(** The statements of an iteration whose forced release finds the drawn
    fork marked as picked up and its lock free: [lock.release()] (line 27)
    raises. *)
Definition raise_trace (c r : Z) : list wd_pc :=
  counting_trace c ++
  [WRandint; WIndex r; WExit (Z.to_nat r) XTest; WExit (Z.to_nat r) XRelease].

(** A run of the table of [main] that leaves fork 1 marked as picked up
    with its lock free.  Philosopher 0 takes both forks; the watchdog
    counts 16 samples without an eater, draws fork 1 and passes the test
    of line 26; philosopher 0 eats and releases fork 1; philosopher 1
    acquires the lock of fork 1; the watchdog goes on with lines 27-29 and
    line 190; philosopher 1 writes [owner] and [picked_up]; philosopher 0
    releases fork 0; the watchdog counts 15 more samples. *)
Definition unsynced : schedule :=
  solo 0 9 ++ replicate 83 (TWatchdog, 1) ++ solo 0 8 ++ solo 1 3 ++
  replicate 4 (TWatchdog, 1) ++ solo 1 2 ++ solo 0 4 ++
  replicate 75 (TWatchdog, 1).

(** The run [deadlock_then_release] up to the decrement of philosopher 0:
    the watchdog has released fork 0, philosophers 4, 3, 2 and 1 have
    eaten, and philosopher 0 has taken its right fork. *)
Definition decrement_unheld : schedule :=
  deadlock ++ replicate 87 (TWatchdog, 0) ++
  solo 4 15 ++ solo 3 15 ++ solo 2 15 ++ solo 1 15 ++ solo 0 3.

(** ** Class Fork: the invariant and release on a free fork *)

Lemma Fork_init_inv i : unlocked_unowned (Fork_init i) ∧ lock_consistent (Fork_init i).
Proof. split; intros H; [reflexivity | discriminate H]. Qed.

Lemma Fork_call_spec o self self' :
  Fork_call o self = Some self' →
  lock self = false ∧
  self' = mkFork (index self) true true o.
Proof.
  unfold Fork_call, lock_acquire. destruct self as [i [] p ow]; simpl; [discriminate|].
  intros [= <-]. done.
Qed.

Lemma Fork_call_blocks o self : Fork_call o self = None ↔ lock self = true.
Proof.
  unfold Fork_call, lock_acquire. destruct (lock self); simpl; split; congruence.
Qed.

Lemma Fork_exit_held self :
  picked_up self = true → lock self = true →
  Fork_exit self = Ok (mkFork (index self) false false (-1)).
Proof.
  unfold Fork_exit, lock_release. destruct self as [i l p ow]; simpl.
  intros -> ->. reflexivity.
Qed.

Lemma Fork_exit_free self : picked_up self = false → Fork_exit self = Ok self.
Proof. unfold Fork_exit. intros ->. reflexivity. Qed.

Lemma apply_op_inv op self :
  unlocked_unowned self → lock_consistent self →
  let '(self', st) := apply_op op self in
  unlocked_unowned self' ∧ lock_consistent self' ∧ ∀ e, st ≠ Raises e.
Proof.
  intros Hu Hc. destruct op as [o|]; simpl.
  - destruct (Fork_call o self) as [self'|] eqn:E.
    + apply Fork_call_spec in E as [_ ->].
      split; [|split]; [intros H; discriminate H | intros _; reflexivity | done].
    + done.
  - destruct (picked_up self) eqn:Ep.
    + rewrite Fork_exit_held by auto.
      split; [|split]; [intros _; reflexivity | intros H; discriminate H | done].
    + rewrite Fork_exit_free by done. done.
Qed.

Lemma run_ops_inv ops : ∀ self,
  unlocked_unowned self → lock_consistent self →
  unlocked_unowned (run_ops ops self).1 ∧ lock_consistent (run_ops ops self).1 ∧
  ∀ e, (run_ops ops self).2 ≠ Raises e.
Proof.
  induction ops as [|op ops IH]; intros self Hu Hc; simpl; [done|].
  pose proof (apply_op_inv op self Hu Hc) as H.
  destruct (apply_op op self) as [self' st]. destruct H as (Hu' & Hc' & Hr).
  destruct st; simpl; auto.
Qed.

(** C5: every fork satisfies "not picked up implies owner = -1": the
    invariant holds for [Fork(i)], a call of [__call__] that returns leaves
    the fork picked up and owned by the caller, a call of [__exit__] on a
    fork with the invariant returns a fork with the invariant, and after
    every sequence of [__call__]/[__exit__] calls on a new fork the
    invariant holds and no call has raised. *)
Theorem fork_unlocked_unowned_invariant :
  (∀ i, unlocked_unowned (Fork_init i)) ∧
  (∀ o self self', Fork_call o self = Some self' →
     picked_up self' = true ∧ owner self' = o ∧ unlocked_unowned self') ∧
  (∀ self, unlocked_unowned self → lock_consistent self →
     ∃ self', Fork_exit self = Ok self' ∧ picked_up self' = false ∧
              owner self' = -1 ∧ unlocked_unowned self') ∧
  (∀ i ops, unlocked_unowned (run_ops ops (Fork_init i)).1 ∧
            ∀ e, (run_ops ops (Fork_init i)).2 ≠ Raises e).
Proof.
  split; [|split; [|split]].
  - intros i. apply Fork_init_inv.
  - intros o self self' H. apply Fork_call_spec in H as [_ ->].
    split; [reflexivity|]. split; [reflexivity|]. intros H; discriminate H.
  - intros self Hu Hc. destruct (picked_up self) eqn:Ep.
    + eexists. split; [apply Fork_exit_held; auto|].
      split; [reflexivity|]. split; [reflexivity|]. intros _; reflexivity.
    + exists self. split; [by apply Fork_exit_free|]. auto.
  - intros i ops.
    destruct (Fork_init_inv i) as [Hu Hc].
    destruct (run_ops_inv ops _ Hu Hc) as (H1 & _ & H3). auto.
Qed.

(** C6: [__exit__] on a fork that is not picked up returns without an
    exception and leaves the fork as it is; so does a second call. *)
Theorem release_free_is_noop (self : Fork) :
  picked_up self = false →
  Fork_exit self = Ok self ∧
  (self' ← Fork_exit self; Fork_exit self') = Ok self ∧
  exit_step XTest self = Ok (self, None).
Proof.
  intros H. rewrite Fork_exit_free by done. simpl.
  rewrite Fork_exit_free by done. unfold exit_step. rewrite H. done.
Qed.

Lemma release_free_is_noop_witness :
  Fork_exit (Fork_init 3) = Ok (Fork_init 3) ∧
  (self' ← Fork_exit (Fork_init 3); Fork_exit self') = Ok (Fork_init 3) ∧
  exit_step XTest (Fork_init 3) = Ok (Fork_init 3, None).
Proof. apply (release_free_is_noop (Fork_init 3)). reflexivity. Defined.

(** ** The table of main *)

Lemma comprehension_ok {A B} (f : A → result B) (g : A → B) (l : list A) :
  (∀ x, x ∈ l → f x = Ok (g x)) → comprehension f l = Ok (g <$> l).
Proof.
  induction l as [|x l IH]; intros H; simpl; [reflexivity|].
  rewrite H by left. simpl. rewrite IH; [reflexivity|].
  intros y Hy. apply H. by right.
Qed.

Lemma length_range n : length (range n) = Z.to_nat n.
Proof. apply length_seqZ. Qed.

Lemma elem_of_range x n : x ∈ range n ↔ 0 ≤ x < n.
Proof. unfold range. rewrite elem_of_seqZ. lia. Qed.

Lemma py_pos_in_range len i :
  0 ≤ i < Z.of_nat len → py_pos len i = Ok (Z.to_nat i).
Proof. intros H. unfold py_pos. by rewrite decide_True. Qed.

Lemma main_table_ring n m : main_table n m = Ok (ring n m).
Proof.
  unfold main_table, ring.
  rewrite (comprehension_ok _
    (λ i, Philosopher_init i (Z.to_nat i) (Z.to_nat ((i + 1) `mod` n)) m));
    [reflexivity|].
  intros i Hi. apply elem_of_range in Hi.
  rewrite length_fmap, length_range.
  rewrite py_pos_in_range by lia. simpl.
  unfold py_mod. rewrite decide_False by lia. simpl.
  rewrite py_pos_in_range; [reflexivity|].
  pose proof (Z.mod_pos_bound (i + 1) n). lia.
Qed.

(** C8 (as amended): assembling the table never reports an error, whatever
    the number of actors: [main_table n m] returns [max n 0] forks and as
    many philosophers, philosopher [i] wired to the forks [i] and
    [(i + 1) % n], also for [n < 2]; the source has no check of [n], which
    [main] fixes to 5. *)
Theorem construction_never_fails (n m : Z) :
  main_table n m = Ok (ring n m) ∧
  main_state n m = Ok (start (ring n m)) ∧
  length (ring n m).1 = Z.to_nat n ∧
  length (ring n m).2 = Z.to_nat n.
Proof.
  split; [apply main_table_ring|].
  split; [unfold main_state; by rewrite main_table_ring|].
  unfold ring; simpl. by rewrite !length_fmap, length_range.
Qed.

(** C8, as stated, fails for one actor: the table of a single philosopher
    is assembled without an error, both its fork references being fork 0;
    and so is the empty table. *)
Lemma construction_accepts_one_actor :
  1 < 2 ∧
  main_state 1 7 =
    Ok (mkState [mkFork 0 false false (-1)]
                [(mkPhilosopher 0 0 0 7 false, PLoop)]
                (mkWatchdog 0 WSample)) ∧
  main_state 0 7 = Ok (mkState [] [] (mkWatchdog 0 WSample)).
Proof. split; [lia|]. split; reflexivity. Qed.

(** ** The watchdog *)

Lemma randint_ok a b : a ≤ b → randint a b = Ok (seqZ a (b - a + 1)).
Proof. intros H. unfold randint. by rewrite decide_True. Qed.

Lemma randint_empty a b : b < a → randint a b = Raise ValueError.
Proof. intros H. unfold randint. rewrite decide_False by lia. done. Qed.

(** C10: when the watchdog is at the draw of line 187 and the list of forks
    is not empty, the draws that [random.randint] can return are exactly
    the [r] with [0 ≤ r ≤ N - 1], and after any of them line 188 finds the
    fork at position [r] without an [IndexError]; with an empty list of
    forks the draw itself raises [ValueError]. *)
Theorem forced_release_index_in_range (σ : State) :
  wpc (watchdog σ) = WRandint →
  let N := Z.of_nat (length (forks σ)) in
  (1 ≤ N →
     (∀ r, is_Some (wd_step r σ) ↔ 0 ≤ r ≤ N - 1) ∧
     (∀ r σ1, wd_step r σ = Some σ1 →
        0 ≤ r ≤ N - 1 ∧
        is_Some (forks σ !! Z.to_nat r) ∧
        py_pos (length (forks σ1)) r = Ok (Z.to_nat r) ∧
        wd_step r σ1 =
          Some (set_watchdog (set_wpc (WExit (Z.to_nat r) XTest) (watchdog σ)) σ))) ∧
  (N = 0 →
     randint 0 (N - 1) = Raise ValueError ∧
     ∀ r, wd_step r σ =
          Some (set_watchdog (set_wpc (WCrashed ValueError) (watchdog σ)) σ)).
Proof.
  intros Hpc N. split.
  - intros HN.
    assert (Hdraw : ∀ r, r ∈ seqZ 0 (N - 1 - 0 + 1) ↔ 0 ≤ r ≤ N - 1).
    { intros r. rewrite elem_of_seqZ. lia. }
    split.
    + intros r. unfold wd_step. rewrite Hpc. fold N.
      rewrite randint_ok by lia. rewrite <- Hdraw.
      destruct (decide (r ∈ seqZ 0 (N - 1 - 0 + 1))); split; intros H;
        first [done | by eexists | by destruct H as [? [=]]].
    + intros r σ1. unfold wd_step at 1. rewrite Hpc. fold N.
      rewrite randint_ok by lia.
      destruct (decide (r ∈ seqZ 0 (N - 1 - 0 + 1))) as [Hin|]; [|done].
      intros [= <-]. apply Hdraw in Hin.
      split; [done|]. split.
      { apply lookup_lt_is_Some. unfold N in Hin. lia. }
      simpl. split.
      { apply py_pos_in_range. unfold N in Hin. lia. }
      unfold wd_step. simpl. rewrite py_pos_in_range by (unfold N in Hin; lia).
      reflexivity.
  - intros HN. split; [apply randint_empty; lia|].
    intros r. unfold wd_step. rewrite Hpc. fold N.
    rewrite randint_empty by lia. reflexivity.
Qed.

(** *** Frame of a watchdog step *)

Lemma count_eating_flags ps :
  count_eating ps = py_sum (Z.b2z <$> ((λ p, eating p.1) <$> ps)).
Proof. unfold count_eating. by rewrite <- list_fmap_compose. Qed.

Lemma exit_step_index k self self' k' :
  exit_step k self = Ok (self', k') → index self' = index self.
Proof.
  destruct k; simpl; try (intros [= <- <-]; reflexivity).
  unfold lock_release. destruct (lock self); simpl; [|done].
  intros [= <- <-]. reflexivity.
Qed.

Lemma wd_step_mk r fs ps s pc :
  wd_step r (mkState fs ps (mkWatchdog s pc)) =
  match pc with
  | WSample => Some (mkState fs ps (mkWatchdog s (WTest (count_eating ps))))
  | WTest c =>
      Some (mkState fs ps
              (mkWatchdog s (if decide (c = 1 ∨ c = 2) then WHealthy else WSleep)))
  | WHealthy => Some (mkState fs ps (mkWatchdog 0 WSample))
  | WSleep => Some (mkState fs ps (mkWatchdog s WIncr))
  | WIncr => Some (mkState fs ps (mkWatchdog (s + 1) WCompare))
  | WCompare =>
      Some (mkState fs ps
              (mkWatchdog s (if decide (s > 15) then WRandint else WSample)))
  | WRandint =>
      match randint 0 (Z.of_nat (length fs) - 1) with
      | Ok draws =>
          if decide (r ∈ draws)
          then Some (mkState fs ps (mkWatchdog s (WIndex r)))
          else None
      | Raise e => Some (mkState fs ps (mkWatchdog s (WCrashed e)))
      end
  | WIndex fork_index =>
      match py_pos (length fs) fork_index with
      | Ok fork => Some (mkState fs ps (mkWatchdog s (WExit fork XTest)))
      | Raise e => Some (mkState fs ps (mkWatchdog s (WCrashed e)))
      end
  | WExit j k =>
      fork ← fs !! j;
      match exit_step k fork with
      | Ok (fork, k') =>
          Some (mkState (<[j := fork]> fs) ps
                  (mkWatchdog s (match k' with
                                 | Some k' => WExit j k'
                                 | None => WReset
                                 end)))
      | Raise e => Some (mkState fs ps (mkWatchdog s (WCrashed e)))
      end
  | WReset => Some (mkState fs ps (mkWatchdog 0 WSample))
  | WCrashed _ => None
  end.
Proof. unfold wd_step; destruct pc; reflexivity. Qed.

Lemma wd_step_philosophers r σ σ' :
  wd_step r σ = Some σ' → philosophers σ' = philosophers σ.
Proof.
  destruct σ as [fs ps [s pc]]. rewrite wd_step_mk. intros H.
  destruct pc; simplify_eq; try reflexivity.
  - destruct (randint _ _); [case_decide|]; by simplify_eq.
  - destruct (py_pos _ _); by simplify_eq.
  - destruct (fs !! fork) as [f|]; simpl in H; [|done].
    destruct (exit_step k f) as [[? ?]|]; by simplify_eq.
Qed.

Lemma wd_step_fork_indices r σ σ' :
  wd_step r σ = Some σ' → index <$> forks σ' = index <$> forks σ.
Proof.
  destruct σ as [fs ps [s pc]]. rewrite wd_step_mk. intros H.
  destruct pc; simplify_eq; try reflexivity.
  - destruct (randint _ _); [case_decide|]; by simplify_eq.
  - destruct (py_pos _ _); by simplify_eq.
  - destruct (fs !! fork) as [f|] eqn:Ef; simpl in H; [|done].
    destruct (exit_step k f) as [[f' ?]|] eqn:Ex; simplify_eq; [|done].
    simpl. rewrite list_fmap_insert. apply list_insert_id.
    rewrite list_lookup_fmap, Ef. simpl. f_equal. symmetry.
    eapply exit_step_index, Ex.
Qed.

(** C9: a step of the watchdog leaves every philosopher as it is, so no
    [spaghetti] is written; of the forks it keeps the number and every
    [index] (only [lock], [picked_up] and [owner] can change); and what it
    does depends on the philosophers only through their [eating] flags: in
    a state with other [spaghetti] values (or any other field but [eating])
    the step makes the same changes to the forks and to the watchdog. *)
Theorem watchdog_ignores_spaghetti (r : Z) (σ σ' : State) :
  wd_step r σ = Some σ' →
  philosophers σ' = philosophers σ ∧
  (∀ i p pc, philosophers σ !! i = Some (p, pc) →
     ∃ p', philosophers σ' !! i = Some (p', pc) ∧ spaghetti p' = spaghetti p) ∧
  index <$> forks σ' = index <$> forks σ ∧
  (∀ σ2, same_eating σ σ2 → forks σ2 = forks σ → watchdog σ2 = watchdog σ →
     ∃ σ2', wd_step r σ2 = Some σ2' ∧ forks σ2' = forks σ' ∧
            watchdog σ2' = watchdog σ' ∧ philosophers σ2' = philosophers σ2).
Proof.
  intros H. split; [eapply wd_step_philosophers, H|].
  split.
  { intros i p pc Hi. exists p. by rewrite (wd_step_philosophers _ _ _ H). }
  split; [eapply wd_step_fork_indices, H|].
  intros [fs2 ps2 w2] Hsame Hfs Hw. simpl in Hfs, Hw. subst fs2 w2.
  destruct σ as [fs ps [s pc]]. unfold same_eating in Hsame. simpl in *.
  assert (Hc : count_eating ps2 = count_eating ps).
  { by rewrite !count_eating_flags, Hsame. }
  rewrite wd_step_mk in H. rewrite wd_step_mk.
  destruct pc; simplify_eq; try (eexists; split; [reflexivity|]; simpl; by rewrite ?Hc).
  - destruct (randint _ _); [case_decide|]; simplify_eq;
      (eexists; split; [reflexivity|]; done).
  - destruct (py_pos _ _); simplify_eq; (eexists; split; [reflexivity|]; done).
  - destruct (fs !! fork) as [f|]; simpl in *; [|done].
    destruct (exit_step k f) as [[? ?]|]; simplify_eq;
      (eexists; split; [reflexivity|]; done).
Qed.

(** *** One iteration of the watchdog *)

Lemma wd_iter_more fuel r σ σ1 tr σ' :
  wd_step r σ = Some σ1 → continuing σ1 →
  wd_iter fuel r σ1 = Some (tr, σ') →
  wd_iter (S fuel) r σ = Some (wpc (watchdog σ) :: tr, σ').
Proof.
  intros H1 Hc H2. simpl. rewrite H1. simpl. unfold continuing in Hc.
  destruct (wpc (watchdog σ1)); try done; rewrite H2; done.
Qed.

Lemma wd_iter_done fuel r σ σ1 :
  wd_step r σ = Some σ1 → ¬ continuing σ1 →
  wd_iter (S fuel) r σ = Some ([wpc (watchdog σ)], σ1).
Proof.
  intros H1 Hc. simpl. rewrite H1. simpl. unfold continuing in Hc.
  destruct (wpc (watchdog σ1)); try done; by destruct Hc.
Qed.

Ltac wd_simpl := rewrite wd_step_mk; cbv beta iota.
Tactic Notation "wd_more" tactic3(tac) :=
  eapply wd_iter_more; [wd_simpl; tac; reflexivity | exact I | ].
Tactic Notation "wd_done" tactic3(tac) :=
  eapply wd_iter_done; [wd_simpl; tac; reflexivity | intros [] ].

Lemma exit_step_release self :
  lock self = true →
  exit_step XRelease self = Ok (set_lock false self, Some XClearPicked).
Proof. intros H. unfold exit_step, lock_release. by rewrite H. Qed.

Lemma iter_healthy r fs ps s :
  count_eating ps = 1 ∨ count_eating ps = 2 →
  check_forks_iter r (mkState fs ps (mkWatchdog s WSample)) =
    Some (healthy_trace (count_eating ps), mkState fs ps (mkWatchdog 0 WSample)).
Proof.
  intros Hh. unfold check_forks_iter, healthy_trace.
  wd_more idtac.
  wd_more (rewrite decide_True by done).
  wd_done idtac.
Qed.

Lemma iter_counting r fs ps s :
  ¬ (count_eating ps = 1 ∨ count_eating ps = 2) → s + 1 ≤ 15 →
  check_forks_iter r (mkState fs ps (mkWatchdog s WSample)) =
    Some (counting_trace (count_eating ps),
          mkState fs ps (mkWatchdog (s + 1) WSample)).
Proof.
  intros Hh Hs. unfold check_forks_iter, counting_trace.
  wd_more idtac.
  wd_more (rewrite decide_False by done).
  wd_more idtac.
  wd_more idtac.
  wd_done (rewrite decide_False by lia).
Qed.

Lemma iter_release_held r fs ps s fork :
  ¬ (count_eating ps = 1 ∨ count_eating ps = 2) → s + 1 > 15 →
  0 ≤ r < Z.of_nat (length fs) → fs !! Z.to_nat r = Some fork →
  picked_up fork = true → lock fork = true →
  check_forks_iter r (mkState fs ps (mkWatchdog s WSample)) =
    Some (release_trace (count_eating ps) r true,
          mkState (<[Z.to_nat r := mkFork (index fork) false false (-1)]> fs) ps
                  (mkWatchdog 0 WSample)).
Proof.
  intros Hh Hs Hr Hf Hp Hl.
  assert (Hlen : (Z.to_nat r < length fs)%nat) by (apply lookup_lt_is_Some; eauto).
  transitivity (Some (release_trace (count_eating ps) r true,
    mkState (<[Z.to_nat r := set_owner (-1) (set_picked_up false (set_lock false fork))]>
              (<[Z.to_nat r := set_picked_up false (set_lock false fork)]>
                (<[Z.to_nat r := set_lock false fork]> (<[Z.to_nat r := fork]> fs))))
            ps (mkWatchdog 0 WSample))).
  - unfold check_forks_iter, release_trace, counting_trace.
    wd_more idtac.
    wd_more (rewrite decide_False by done).
    wd_more idtac.
    wd_more idtac.
    wd_more (rewrite decide_True by lia).
    wd_more (rewrite randint_ok by lia;
             rewrite decide_True by (apply elem_of_seqZ; lia)).
    wd_more (rewrite py_pos_in_range by lia).
    wd_more (rewrite Hf; cbn [mbind option_bind exit_step]; rewrite Hp).
    wd_more (rewrite list_lookup_insert_eq by done; cbn [mbind option_bind];
             rewrite exit_step_release by done).
    wd_more (rewrite list_lookup_insert_eq by (by rewrite length_insert);
             cbn [mbind option_bind exit_step]).
    wd_more (rewrite list_lookup_insert_eq by (by rewrite !length_insert);
             cbn [mbind option_bind exit_step]).
    wd_done idtac.
  - by rewrite !list_insert_insert_eq.
Qed.

Lemma iter_release_free r fs ps s fork :
  ¬ (count_eating ps = 1 ∨ count_eating ps = 2) → s + 1 > 15 →
  0 ≤ r < Z.of_nat (length fs) → fs !! Z.to_nat r = Some fork →
  picked_up fork = false →
  check_forks_iter r (mkState fs ps (mkWatchdog s WSample)) =
    Some (release_trace (count_eating ps) r false,
          mkState fs ps (mkWatchdog 0 WSample)).
Proof.
  intros Hh Hs Hr Hf Hp.
  transitivity (Some (release_trace (count_eating ps) r false,
    mkState (<[Z.to_nat r := fork]> fs) ps (mkWatchdog 0 WSample))).
  - unfold check_forks_iter, release_trace, counting_trace.
    wd_more idtac.
    wd_more (rewrite decide_False by done).
    wd_more idtac.
    wd_more idtac.
    wd_more (rewrite decide_True by lia).
    wd_more (rewrite randint_ok by lia;
             rewrite decide_True by (apply elem_of_seqZ; lia)).
    wd_more (rewrite py_pos_in_range by lia).
    wd_more (rewrite Hf; cbn [mbind option_bind exit_step]; rewrite Hp).
    wd_done idtac.
  - by rewrite (list_insert_id _ _ _ Hf).
Qed.

Lemma iter_release_unlocked r fs ps s fork :
  ¬ (count_eating ps = 1 ∨ count_eating ps = 2) → s + 1 > 15 →
  0 ≤ r < Z.of_nat (length fs) → fs !! Z.to_nat r = Some fork →
  picked_up fork = true → lock fork = false →
  check_forks_iter r (mkState fs ps (mkWatchdog s WSample)) =
    Some (raise_trace (count_eating ps) r,
          mkState fs ps (mkWatchdog (s + 1) (WCrashed RuntimeError))).
Proof.
  intros Hh Hs Hr Hf Hp Hl.
  transitivity (Some (raise_trace (count_eating ps) r,
    mkState (<[Z.to_nat r := fork]> fs) ps
            (mkWatchdog (s + 1) (WCrashed RuntimeError)))).
  - unfold check_forks_iter, raise_trace, counting_trace.
    wd_more idtac.
    wd_more (rewrite decide_False by done).
    wd_more idtac.
    wd_more idtac.
    wd_more (rewrite decide_True by lia).
    wd_more (rewrite randint_ok by lia;
             rewrite decide_True by (apply elem_of_seqZ; lia)).
    wd_more (rewrite py_pos_in_range by lia).
    wd_more (rewrite Hf; cbn [mbind option_bind exit_step]; rewrite Hp).
    wd_done (rewrite list_lookup_insert_eq by (apply lookup_lt_is_Some; eauto);
             cbn [mbind option_bind exit_step]; unfold lock_release; rewrite Hl).
  - by rewrite (list_insert_id _ _ _ Hf).
Qed.

(** The iteration that reaches the threshold, for a fork whose lock is held
    if it is picked up: it calls [__exit__] once, on the drawn fork. *)
Lemma iter_release r fs ps s fork :
  ¬ (count_eating ps = 1 ∨ count_eating ps = 2) → s + 1 > 15 →
  0 ≤ r < Z.of_nat (length fs) → fs !! Z.to_nat r = Some fork →
  lock_consistent fork →
  ∃ fork', Fork_exit fork = Ok fork' ∧
    check_forks_iter r (mkState fs ps (mkWatchdog s WSample)) =
      Some (release_trace (count_eating ps) r (picked_up fork),
            mkState (<[Z.to_nat r := fork']> fs) ps (mkWatchdog 0 WSample)).
Proof.
  intros Hh Hs Hr Hf Hc. destruct (picked_up fork) eqn:Hp.
  - eexists. split; [apply Fork_exit_held; auto|].
    apply iter_release_held; auto.
  - exists fork. split; [by apply Fork_exit_free|].
    rewrite (list_insert_id _ _ _ Hf). by apply (iter_release_free r fs ps s fork).
Qed.

Lemma forced_releases_release_trace c r held :
  forced_releases (release_trace c r held) = [WExit (Z.to_nat r) XTest].
Proof. by destruct held. Qed.

(** One iteration of the watchdog, started at the sample of line 177
    with stall counter [s].  If exactly 1 or 2 philosophers eat, the
    counter becomes 0 and nothing else changes.  Otherwise the counter
    becomes [s + 1] as long as that does not exceed 15, without a forced
    release; and when [s + 1] exceeds 15 the draw is one of the [N]
    positions [0 .. N-1], each listed once by [random.randint], the
    iteration calls [__exit__] once, on the drawn fork, and sets the
    counter to 0 (the fork's lock being held if the fork is picked up). *)
Theorem watchdog_iteration (r : Z) (σ : State) :
  wpc (watchdog σ) = WSample →
  let s := system_time (watchdog σ) in
  let N := Z.of_nat (length (forks σ)) in
  (healthy σ →
     ∃ tr, check_forks_iter r σ = Some (tr, set_watchdog (mkWatchdog 0 WSample) σ) ∧
           forced_releases tr = []) ∧
  (¬ healthy σ → s + 1 ≤ 15 →
     ∃ tr, check_forks_iter r σ =
             Some (tr, set_watchdog (mkWatchdog (s + 1) WSample) σ) ∧
           forced_releases tr = []) ∧
  (¬ healthy σ → s + 1 > 15 → 1 ≤ N →
     (∃ draws, randint 0 (N - 1) = Ok draws ∧ NoDup draws ∧
               ∀ j, j ∈ draws ↔ 0 ≤ j < N) ∧
     (∀ fork, 0 ≤ r < N → forks σ !! Z.to_nat r = Some fork →
        lock_consistent fork →
        ∃ fork' tr, Fork_exit fork = Ok fork' ∧
          check_forks_iter r σ =
            Some (tr, mkState (<[Z.to_nat r := fork']> (forks σ)) (philosophers σ)
                              (mkWatchdog 0 WSample)) ∧
          forced_releases tr = [WExit (Z.to_nat r) XTest])).
Proof.
  destruct σ as [fs ps [s pc]]. simpl. intros ->. unfold healthy. simpl.
  split; [|split].
  - intros Hh. eexists. split; [by apply iter_healthy|]. reflexivity.
  - intros Hh Hs. eexists. split; [by apply iter_counting|]. reflexivity.
  - intros Hh Hs HN. split.
    + eexists. split; [apply randint_ok; lia|]. split.
      * apply NoDup_seqZ.
      * intros j. rewrite elem_of_seqZ. lia.
    + intros fork Hr Hf Hc.
      destruct (iter_release r fs ps s fork) as (fork' & Hx & Hit); auto.
      exists fork'. eexists. split; [done|]. split; [exact Hit|].
      apply forced_releases_release_trace.
Qed.

(** C2: the iteration that reaches the threshold does not always release
    and reset.  After the run [unsynced] of the table of [main] no thread
    is inside a call on fork 1, which is marked as picked up while its
    lock is free; the watchdog is at its sample with stall counter 15 and
    nobody eats.  The iteration that draws fork 1 passes the test of line
    26, [lock.release()] of line 27 raises [RuntimeError] and line 190 is
    not reached: the counter is left at 16, no fork has changed and the
    watchdog thread has ended. *)
Theorem forced_release_raises :
  ∃ σ fork σ',
    main = Ok table ∧ run unsynced table = Some σ ∧
    watchdog σ = mkWatchdog 15 WSample ∧ ¬ healthy σ ∧
    forks σ !! 1%nat = Some fork ∧ picked_up fork = true ∧ lock fork = false ∧
    (∀ i self pc, philosophers σ !! i = Some (self, pc) →
       writes_fork 1 self pc = false) ∧
    Fork_exit fork = Raise RuntimeError ∧
    check_forks_iter 1 σ = Some (raise_trace 0 1, σ') ∧
    watchdog σ' = mkWatchdog 16 (WCrashed RuntimeError) ∧
    forks σ' = forks σ ∧ philosophers σ' = philosophers σ ∧
    ∀ r, wd_step r σ' = None.
Proof.
  let s0 := eval vm_compute in (run unsynced table) in
  match s0 with
  | Some ?a => exists a, (mkFork 1 false true 1),
                 (set_watchdog (mkWatchdog 16 (WCrashed RuntimeError)) a)
  end.
  split; [reflexivity|]. split; [vm_compute; reflexivity|].
  split; [reflexivity|]. split.
  { unfold healthy. vm_compute. intros [H|H]; discriminate H. }
  split; [reflexivity|]. split; [reflexivity|]. split; [reflexivity|]. split.
  { intros i self pc Hi.
    repeat (destruct i as [|i]; simpl in Hi; simplify_eq; try reflexivity). }
  split; [reflexivity|]. split.
  { rewrite (iter_release_unlocked 1 _ _ 15 (mkFork 1 false true 1));
      [reflexivity | vm_compute; intros [H|H]; discriminate H | lia
      | simpl; lia | reflexivity | reflexivity | reflexivity]. }
  split; [reflexivity|]. split; [reflexivity|]. split; [reflexivity|].
  intros r. reflexivity.
Qed.

(** *** Consecutive iterations *)

Lemma iterate_cons iter w r ps fs ticks tr σ' outs w' :
  iter r (mkState fs ps w) = Some (tr, σ') →
  iterate iter (watchdog σ') ticks = Some (outs, w') →
  iterate iter w ((r, ps, fs) :: ticks) = Some ((tr, σ') :: outs, w').
Proof. intros H1 H2. simpl. rewrite H1. simpl. rewrite H2. reflexivity. Qed.

Lemma iterate_snoc iter w ticks : ∀ r ps fs outs w1 tr σ',
  iterate iter w ticks = Some (outs, w1) →
  iter r (mkState fs ps w1) = Some (tr, σ') →
  iterate iter w (ticks ++ [(r, ps, fs)]) =
    Some (outs ++ [(tr, σ')], watchdog σ').
Proof.
  revert w. induction ticks as [|[[r0 ps0] fs0] ticks IH];
    intros w r ps fs outs w1 tr σ' H1 H2.
  - simpl in H1. injection H1 as <- <-. simpl. rewrite H2. reflexivity.
  - simpl in H1.
    destruct (iter r0 (mkState fs0 ps0 w)) as [[tr0 σ0]|] eqn:E0; [|done].
    simpl in H1.
    destruct (iterate iter (watchdog σ0) ticks) as [[o1 w2]|] eqn:E1; [|done].
    simpl in H1. injection H1 as <- <-.
    simpl. rewrite E0. simpl.
    rewrite (IH _ _ _ _ _ _ _ _ E1 H2). reflexivity.
Qed.

Lemma watch_counting ticks : ∀ s,
  Forall stalled ticks → s + Z.of_nat (length ticks) ≤ 15 →
  ∃ outs, watch (mkWatchdog s WSample) ticks =
            Some (outs, mkWatchdog (s + Z.of_nat (length ticks)) WSample) ∧
          Forall2 quiet ticks outs.
Proof.
  unfold watch.
  induction ticks as [|[[r ps] fs] ticks IH]; intros s Hst Hs.
  - exists []. simpl. rewrite Z.add_0_r. by split; [|constructor].
  - inversion Hst as [|x l Hx Hst']; subst x l. clear Hst. rename Hst' into Hst.
    unfold stalled in Hx. simpl in Hx.
    rewrite length_cons in *.
    destruct (IH (s + 1) Hst) as (outs & Hw & Hq); [lia|].
    eexists. split.
    + eapply iterate_cons; [apply iter_counting; [done|lia]|].
      simpl. rewrite Hw. do 3 f_equal. lia.
    + constructor; [|done]. by split.
Qed.

Lemma watch_snoc w ticks r ps fs outs w1 tr σ' :
  watch w ticks = Some (outs, w1) →
  check_forks_iter r (mkState fs ps w1) = Some (tr, σ') →
  watch w (ticks ++ [(r, ps, fs)]) = Some (outs ++ [(tr, σ')], watchdog σ').
Proof. apply iterate_snoc. Qed.

(** C3 (as amended): when 16 consecutive samples are outside {1, 2},
    counted from a stall counter of 0, the first 15 iterations release
    nothing and the 16th calls [__exit__] exactly once, on the drawn fork.
    If that fork is picked up and its lock is held, its lock and its
    [picked_up] go from true to false and the counter is reset; if it is
    not picked up, no fork changes, no [picked_up] goes from true to
    false, and the counter is reset.  (In the remaining case, picked up
    with the lock free, the call raises: the counter stays 16 and no fork
    changes.) *)
Theorem stall_recovery (ticks : list tick) (r : Z)
    (ps : list (Philosopher * phil_pc)) (fs : list Fork) (fork : Fork) :
  length ticks = 15%nat → Forall stalled ticks → stalled (r, ps, fs) →
  0 ≤ r < Z.of_nat (length fs) → fs !! Z.to_nat r = Some fork →
  ∃ outs tr σ',
    watch (mkWatchdog 0 WSample) (ticks ++ [(r, ps, fs)]) =
      Some (outs ++ [(tr, σ')], watchdog σ') ∧
    Forall2 quiet ticks outs ∧
    forced_releases tr = [WExit (Z.to_nat r) XTest] ∧
    philosophers σ' = ps ∧
    (picked_up fork = true → lock fork = true →
       watchdog σ' = mkWatchdog 0 WSample ∧
       forks σ' = <[Z.to_nat r := mkFork (index fork) false false (-1)]> fs ∧
       some_fork_released fs (forks σ')) ∧
    (picked_up fork = false →
       watchdog σ' = mkWatchdog 0 WSample ∧
       forks σ' = fs ∧ ¬ some_fork_released fs (forks σ')) ∧
    (picked_up fork = true → lock fork = false →
       watchdog σ' = mkWatchdog 16 (WCrashed RuntimeError) ∧ forks σ' = fs).
Proof.
  intros Hlen Hst Hx Hr Hf. unfold stalled in Hx. simpl in Hx.
  destruct (watch_counting ticks 0 Hst) as (outs & Hw & Hq); [lia|].
  rewrite Hlen in Hw. change (0 + Z.of_nat 15) with 15 in Hw.
  assert (Hj : (Z.to_nat r < length fs)%nat) by (apply lookup_lt_is_Some; eauto).
  destruct (picked_up fork) eqn:Hp; [destruct (lock fork) eqn:Hl|].
  - exists outs, (release_trace (count_eating ps) r true),
      (mkState (<[Z.to_nat r := mkFork (index fork) false false (-1)]> fs) ps
               (mkWatchdog 0 WSample)).
    split.
    { rewrite (watch_snoc _ _ r ps fs _ _ _ _ Hw
                 (iter_release_held r fs ps 15 fork Hx ltac:(lia) Hr Hf Hp Hl)).
      reflexivity. }
    split; [done|]. split; [reflexivity|]. split; [reflexivity|].
    split; [|split; intros; discriminate]. intros _ _.
    split; [reflexivity|]. split; [reflexivity|].
    exists (Z.to_nat r), fork, (mkFork (index fork) false false (-1)).
    simpl. by rewrite list_lookup_insert_eq.
  - exists outs, (raise_trace (count_eating ps) r),
      (mkState fs ps (mkWatchdog (15 + 1) (WCrashed RuntimeError))).
    split.
    { rewrite (watch_snoc _ _ r ps fs _ _ _ _ Hw
                 (iter_release_unlocked r fs ps 15 fork Hx ltac:(lia) Hr Hf Hp Hl)).
      reflexivity. }
    split; [done|]. split; [reflexivity|]. split; [reflexivity|].
    split; [intros; discriminate|]. split; [intros; discriminate|].
    intros _ _. split; reflexivity.
  - exists outs, (release_trace (count_eating ps) r false),
      (mkState fs ps (mkWatchdog 0 WSample)).
    split.
    { rewrite (watch_snoc _ _ r ps fs _ _ _ _ Hw
                 (iter_release_free r fs ps 15 fork Hx ltac:(lia) Hr Hf Hp)).
      reflexivity. }
    split; [done|]. split; [reflexivity|]. split; [reflexivity|].
    split; [intros; discriminate|]. split; [|intros; discriminate].
    intros _. split; [reflexivity|]. split; [reflexivity|].
    intros (j & f & f' & H1 & H2 & H3 & H4). simpl in H2. congruence.
Qed.

(** ** The philosophers in interleaved runs *)

Lemma phil_step_own i σ σ' :
  phil_step i σ = Some σ' →
  ∃ self pc self' pc',
    philosophers σ !! i = Some (self, pc) ∧
    philosophers σ' = <[i := (self', pc')]> (philosophers σ) ∧
    watchdog σ' = watchdog σ ∧
    own_step self pc self' pc'.
Proof.
  unfold phil_step. destruct (philosophers σ !! i) as [[self pc]|] eqn:E; [|done].
  simpl. intros H. exists self, pc.
  destruct pc as [| |s k| | | | | |s exc k| |]; simplify_eq;
    try (eexists _, _; split; [done|]; split; [reflexivity|]; split;
         [reflexivity|]; simpl; done).
  - destruct (forks σ !! fork_of self s) as [f|]; simpl in H; [|done].
    destruct k; simpl in H.
    + destruct (lock_acquire f); simpl in H; simplify_eq.
      eexists _, _; split; [done|]; split; [reflexivity|]; done.
    + simplify_eq. eexists _, _; split; [done|]; split; [reflexivity|]; done.
    + simplify_eq. eexists _, _; split; [done|]; split; [reflexivity|]; done.
  - destruct (forks σ !! fork_of self s) as [f|]; simpl in H; [|done].
    destruct (exit_step k f) as [[f' [k'|]]|e]; simplify_eq;
      (eexists _, _; split; [done|]; split; [reflexivity|]; split;
       [reflexivity|]; simpl; split; [done|]); eauto.
Qed.

Lemma step_other_philosopher t r σ σ' i :
  step t r σ = Some σ' → t ≠ TPhil i →
  philosophers σ' !! i = philosophers σ !! i.
Proof.
  destruct t as [j|]; simpl; intros H Hne.
  - apply phil_step_own in H as (self & pc & self' & pc' & _ & -> & _).
    apply list_lookup_insert_ne. congruence.
  - by rewrite (wd_step_philosophers _ _ _ H).
Qed.

Lemma step_own_philosopher r σ σ' i self pc :
  step (TPhil i) r σ = Some σ' → philosophers σ !! i = Some (self, pc) →
  ∃ self' pc', philosophers σ' !! i = Some (self', pc') ∧
               own_step self pc self' pc'.
Proof.
  simpl. intros H Hi.
  apply phil_step_own in H as (self0 & pc0 & self' & pc' & Hi0 & -> & _ & Hown).
  rewrite Hi in Hi0. injection Hi0 as <- <-.
  exists self', pc'. split; [|done].
  apply list_lookup_insert_eq. by eapply lookup_lt_Some.
Qed.

Lemma run_app s1 s2 σ : run (s1 ++ s2) σ = σ' ← run s1 σ; run s2 σ'.
Proof.
  revert σ. induction s1 as [|[t r] s1 IH]; intros σ; simpl; [done|].
  destruct (step t r σ) as [σ1|]; simpl; [apply IH|done].
Qed.

Lemma count_steps_app P s1 s2 σ σ1 :
  run s1 σ = Some σ1 →
  count_steps P (s1 ++ s2) σ = (count_steps P s1 σ + count_steps P s2 σ1)%nat.
Proof.
  revert σ. induction s1 as [|[t r] s1 IH]; intros σ; simpl.
  - by intros [= ->].
  - destruct (step t r σ) as [σ'|]; simpl; [|done].
    intros H. rewrite (IH _ H). lia.
Qed.

Lemma consumption_step m i t r σ σ' d c x :
  philosophers σ !! i = Some x → consumption_inv m d c x →
  step t r σ = Some σ' →
  ∃ x', philosophers σ' !! i = Some x' ∧
        consumption_inv m (d + if decrements i t σ σ' then 1 else 0)
                          (c + if completes_eat i t σ σ' then 1 else 0) x'.
Proof.
  intros Hi Hinv Hstep. destruct (decide (t = TPhil i)) as [->|Hne].
  - destruct x as [self pc].
    destruct (step_own_philosopher _ _ _ _ _ _ Hstep Hi)
      as (self' & pc' & Hi' & Hown).
    exists (self', pc'). split; [done|].
    unfold decrements, completes_eat, pc_of. rewrite Hi, Hi'.
    rewrite bool_decide_eq_true_2 by done. simpl.
    destruct Hinv as (Hs & Hd & H0 & Hb & Hdone). simpl in *.
    unfold consumption_inv. simpl.
    destruct pc as [| |s k| | | | | |s exc k| |]; simpl in Hown; try done.
    all: try destruct k.
    all: try (destruct Hown as [-> Hpc]).
    all: repeat match goal with
         | H : _ ∨ _ |- _ => destruct H as [H|H]
         | H : ∃ _, _ |- _ => destruct H as [? H]
         end; subst pc'.
    all: try case_decide; try destruct s; try destruct exc; simpl in *.
    all: try (specialize (Hb eq_refl)).
    all: repeat split; intros; try discriminate; try lia.
  - exists x. split; [by rewrite (step_other_philosopher _ _ _ _ _ Hstep Hne)|].
    unfold decrements, completes_eat.
    rewrite bool_decide_eq_false_2 by done. simpl.
    by rewrite !Nat.add_0_r.
Qed.

Lemma consumption_run m i sched : ∀ σ σ' d c x,
  philosophers σ !! i = Some x → consumption_inv m d c x →
  run sched σ = Some σ' →
  ∃ x', philosophers σ' !! i = Some x' ∧
        consumption_inv m (d + count_steps (decrements i) sched σ)
                          (c + count_steps (completes_eat i) sched σ) x'.
Proof.
  induction sched as [|[t r] sched IH]; intros σ σ' d c x Hi Hinv Hrun; simpl in *.
  - injection Hrun as <-. exists x. by rewrite !Nat.add_0_r.
  - destruct (step t r σ) as [σ1|] eqn:Hstep; simpl in Hrun; [|done].
    destruct (consumption_step _ _ _ _ _ _ _ _ _ Hi Hinv Hstep) as (x1 & Hi1 & Hinv1).
    destruct (IH _ _ _ _ _ Hi1 Hinv1 Hrun) as (x' & Hi' & Hinv').
    exists x'. split; [done|]. by rewrite !Nat.add_assoc.
Qed.

Lemma step_philosophers_length t r σ σ' :
  step t r σ = Some σ' → length (philosophers σ') = length (philosophers σ).
Proof.
  destruct t as [j|]; simpl; intros H.
  - apply phil_step_own in H as (? & ? & ? & ? & _ & -> & _).
    apply length_insert.
  - by rewrite (wd_step_philosophers _ _ _ H).
Qed.

Lemma run_philosophers_length sched : ∀ σ σ',
  run sched σ = Some σ' → length (philosophers σ') = length (philosophers σ).
Proof.
  induction sched as [|[t r] sched IH]; intros σ σ'; simpl.
  - by intros [= ->].
  - destruct (step t r σ) as [σ1|] eqn:E; simpl; [|done].
    intros H. rewrite (IH _ _ H). by eapply step_philosophers_length.
Qed.

(** The philosophers of the started table: at the head of the loop, with
    [m] units, not eating. *)
Lemma main_state_philosopher n m σ0 i x :
  main_state n m = Ok σ0 → philosophers σ0 !! i = Some x →
  x.2 = PLoop ∧ spaghetti x.1 = m ∧ eating x.1 = false.
Proof.
  unfold main_state. rewrite main_table_ring. simpl. intros [= <-].
  unfold start, ring. simpl. rewrite !list_lookup_fmap.
  destruct (range n !! i); simpl; [|done]. intros [= <-]. done.
Qed.

(** ** Eating and the owners of the forks *)

Lemma phil_step_forks i σ σ' self pc :
  phil_step i σ = Some σ' → philosophers σ !! i = Some (self, pc) →
  match pc with
  | PCall s k =>
      ∃ f f' k', forks σ !! fork_of self s = Some f ∧
                 call_step k (p_index self) f = Some (f', k') ∧
                 forks σ' = <[fork_of self s := f']> (forks σ)
  | PExit _ _ _ => True
  | _ => forks σ' = forks σ
  end.
Proof.
  unfold phil_step. intros H Hi. rewrite Hi in H. simpl in H.
  destruct pc as [| |s k| | | | | |s exc k| |]; simplify_eq; try done.
  destruct (forks σ !! fork_of self s) as [f|]; simpl in H; [|done].
  destruct (call_step k (p_index self) f) as [[f' k']|] eqn:E; simpl in H; [|done].
  simplify_eq. by exists f, f', k'.
Qed.

Lemma owner_at_insert σ fs' a f f' j :
  forks σ !! a = Some f → fs' = <[a := f']> (forks σ) →
  owner <$> fs' !! j = if decide (a = j) then Some (owner f') else owner_at σ j.
Proof.
  intros Ha ->. case_decide as Hj.
  - subst j. rewrite list_lookup_insert_eq; [done|]. by eapply lookup_lt_Some.
  - by rewrite list_lookup_insert_ne.
Qed.

Lemma call_step_owner k o f f' k' :
  call_step k o f = Some (f', k') →
  owner f' = match k with CSetOwner => o | _ => owner f end.
Proof.
  destruct k; simpl; try (intros [= <- <-]; done).
  unfold lock_acquire. destruct (lock f); simpl; [done|]. by intros [= <- <-].
Qed.

Lemma eating_inside_step i t r σ σ' x :
  philosophers σ !! i = Some x → eating_inside x → step t r σ = Some σ' →
  ∃ x', philosophers σ' !! i = Some x' ∧ eating_inside x'.
Proof.
  intros Hi Hin Hstep. destruct (decide (t = TPhil i)) as [->|Hne].
  - destruct x as [self pc].
    destruct (step_own_philosopher _ _ _ _ _ _ Hstep Hi)
      as (self' & pc' & Hi' & Hown).
    exists (self', pc'). split; [done|]. unfold eating_inside in *. simpl in *.
    destruct pc as [| |s k| | | | | |s exc k| |]; simpl in Hown; try done.
    all: try destruct k.
    all: destruct Hown as [-> Hpc].
    all: simpl; intros He; try (by left); try (by right); try discriminate.
    all: destruct (Hin He) as [?|?]; discriminate.
  - exists x. by rewrite (step_other_philosopher _ _ _ _ _ Hstep Hne).
Qed.

Lemma keeps_owner_spec i σ σ' self pc s :
  philosophers σ !! i = Some (self, pc) → keeps_owner i σ σ' = true →
  holds s pc = true →
  owner_at σ' (fork_of self s) = owner_at σ (fork_of self s).
Proof.
  unfold keeps_owner. intros -> H Hh. simpl in H.
  rewrite !andb_true_iff in H. destruct H as (HL & HR & _).
  destruct s; [clear HR; rename HL into H | clear HL; rename HR into H];
    rewrite Hh in H; simpl in H; by apply bool_decide_eq_true in H.
Qed.

Lemma owns_held_step i t r σ σ' x :
  philosophers σ !! i = Some x → eating_inside x → owns_held σ x →
  step t r σ = Some σ' →
  t = TPhil i ∨ keeps_owner i σ σ' = true →
  ∃ x', philosophers σ' !! i = Some x' ∧ owns_held σ' x'.
Proof.
  intros Hi Hin Hown Hstep Hquiet. destruct x as [self pc].
  destruct (decide (t = TPhil i)) as [->|Hne].
  - destruct (step_own_philosopher _ _ _ _ _ _ Hstep Hi)
      as (self' & pc' & Hi' & Hs).
    exists (self', pc'). split; [done|]. clear Hquiet.
    simpl in Hstep.
    unfold owns_held in *. simpl in *.
    destruct pc as [| |s k| | | | | |s exc k| |]; simpl in Hs; try done.
    all: try destruct k.
    all: destruct Hs as [-> Hpc].
    all: repeat match goal with
         | H : _ ∨ _ |- _ => destruct H as [H|H]
         | H : ∃ _, _ |- _ => destruct H as [? H]
         end; subst pc'.
    all: pose proof (phil_step_forks _ _ _ _ _ Hstep Hi) as Hf; cbv beta iota in Hf.
    all: try (intros s' Hs'; unfold owner_at; rewrite Hf; apply Hown; by destruct s').
    all: try case_decide.
    all: try (intros s' Hs'; destruct s'; try destruct s; try destruct exc; simpl in Hs'; discriminate).
    all: destruct Hf as (f & f' & k' & Hfa & Hcall & Hfs).
    all: pose proof (call_step_owner _ _ _ _ _ Hcall) as Ho; simpl in Ho.
    all: intros s' Hs'; unfold owner_at; rewrite (owner_at_insert _ _ _ _ _ _ Hfa Hfs).
    all: case_decide as Hj.
    all: try (apply Hown; by destruct s, s').
    all: try (rewrite Ho; done).
    all: try (destruct s, s'; simpl in Hs'; discriminate).
    all: rewrite Ho.
    all: try (assert (Hx : owner_at σ (fork_of self s) = Some (p_index self)); [rewrite Hj; apply Hown; by destruct s, s'|unfold owner_at in Hx; rewrite Hfa in Hx; simpl in Hx; done]).
  - exists (self, pc).
    split; [by rewrite (step_other_philosopher _ _ _ _ _ Hstep Hne)|].
    destruct Hquiet as [?|Hk]; [done|].
    intros s Hs. simpl in *.
    rewrite (keeps_owner_spec _ _ _ _ _ _ Hi Hk Hs). by apply Hown.
Qed.

Lemma eating_inside_run i sched : ∀ σ σ' x,
  philosophers σ !! i = Some x → eating_inside x → run sched σ = Some σ' →
  ∃ x', philosophers σ' !! i = Some x' ∧ eating_inside x'.
Proof.
  induction sched as [|[t r] sched IH]; intros σ σ' x Hi Hin Hrun; simpl in *.
  - injection Hrun as <-. eauto.
  - destruct (step t r σ) as [σ1|] eqn:Hstep; simpl in Hrun; [|done].
    destruct (eating_inside_step _ _ _ _ _ _ Hi Hin Hstep) as (x1 & Hi1 & Hin1).
    eauto.
Qed.

Lemma owns_held_run i sched : ∀ σ σ' x,
  philosophers σ !! i = Some x → eating_inside x → owns_held σ x →
  run sched σ = Some σ' → undisturbed i sched σ = true →
  ∃ x', philosophers σ' !! i = Some x' ∧ owns_held σ' x'.
Proof.
  induction sched as [|[t r] sched IH]; intros σ σ' x Hi Hin Hown Hrun Hu;
    simpl in *.
  - injection Hrun as <-. eauto.
  - destruct (step t r σ) as [σ1|] eqn:Hstep; simpl in Hrun; [|done].
    apply andb_true_iff in Hu as [Hq Hu].
    assert (Hq' : t = TPhil i ∨ keeps_owner i σ σ1 = true).
    { apply orb_true_iff in Hq as [Hq|Hq]; [left|by right].
      by apply bool_decide_eq_true in Hq. }
    destruct (eating_inside_step _ _ _ _ _ _ Hi Hin Hstep) as (x1 & Hi1 & Hin1).
    destruct (owns_held_step _ _ _ _ _ _ Hi Hin Hown Hstep Hq')
      as (x1' & Hi1' & Hown1).
    rewrite Hi1 in Hi1'. injection Hi1' as <-. eauto.
Qed.

(** C4 (as amended): for a table whose philosophers start with [m ≥ 0]
    units, in every state of every interleaved run the [spaghetti] of a
    philosopher lies between 0 and [m]; it is [m] minus the number of
    executions of [self.spaghetti -= 1] by that thread, which is the
    number of its completed calls of [eat] (plus one once a call is past
    its decrement and has not returned); it never increases from a state
    to a later one; it is exactly 0 when [run] has returned by its loop
    test; and at the decrement, the first statement after the second
    [__call__] has returned, the owners of the left and of the right fork
    both equal the philosopher's index if along the run no other thread
    has written the [owner] of a fork while the philosopher held it. *)
Theorem spaghetti_consumption (n m : Z) (σ0 σ : State) (sched : schedule)
    (i : nat) (self : Philosopher) (pc : phil_pc) :
  0 ≤ m → main_state n m = Ok σ0 → run sched σ0 = Some σ →
  philosophers σ !! i = Some (self, pc) →
  0 ≤ spaghetti self ≤ m ∧
  (pc = PDone → spaghetti self = 0) ∧
  spaghetti self = m - Z.of_nat (count_steps (decrements i) sched σ0) ∧
  count_steps (decrements i) sched σ0 =
    (count_steps (completes_eat i) sched σ0 + after_dec pc)%nat ∧
  (∀ sched' σ' self' pc', run sched' σ = Some σ' →
     philosophers σ' !! i = Some (self', pc') →
     spaghetti self' ≤ spaghetti self) ∧
  (pc = PDec → undisturbed i sched σ0 = true →
     owner_at σ (left_fork self) = Some (p_index self) ∧
     owner_at σ (right_fork self) = Some (p_index self)).
Proof.
  intros Hm Hmain Hrun Hi.
  assert (is_Some (philosophers σ0 !! i)) as [x0 Hi0].
  { apply lookup_lt_is_Some. rewrite <- (run_philosophers_length _ _ _ Hrun).
    by eapply lookup_lt_Some. }
  destruct (main_state_philosopher _ _ _ _ _ Hmain Hi0) as (Hpc0 & Hs0 & He0).
  assert (Hinv0 : consumption_inv m 0 0 x0).
  { unfold consumption_inv. rewrite Hpc0, Hs0. simpl.
    repeat split; intros; try discriminate; lia. }
  assert (Hall : ∀ sch σ1 x1, run sch σ0 = Some σ1 →
            philosophers σ1 !! i = Some x1 →
            consumption_inv m (count_steps (decrements i) sch σ0)
                              (count_steps (completes_eat i) sch σ0) x1).
  { intros sch σ1 x1 Hr H1.
    destruct (consumption_run m i sch _ _ _ _ _ Hi0 Hinv0 Hr) as (x' & Hx' & Hinv).
    rewrite H1 in Hx'. by injection Hx' as <-. }
  destruct (Hall _ _ _ Hrun Hi) as (Hs & Hd & H0 & _ & Hdone). simpl in *.
  split; [lia|]. split; [done|]. split; [done|]. split; [done|]. split.
  - intros sched' σ' self' pc' Hrun' Hi'.
    assert (Hrun2 : run (sched ++ sched') σ0 = Some σ').
    { rewrite run_app, Hrun. done. }
    destruct (Hall _ _ _ Hrun2 Hi') as (Hs' & _). simpl in Hs'.
    rewrite (count_steps_app _ _ _ _ _ Hrun) in Hs'. lia.
  - intros -> Hu.
    assert (Hin0 : eating_inside x0).
    { intros H. rewrite He0 in H. discriminate. }
    assert (Hown0 : owns_held σ0 x0).
    { intros s. rewrite Hpc0. simpl. discriminate. }
    destruct (owns_held_run _ _ _ _ _ Hi0 Hin0 Hown0 Hrun Hu) as (x & Hx & Hown).
    rewrite Hi in Hx. injection Hx as <-.
    split; [apply (Hown L) | apply (Hown R)]; reflexivity.
Qed.

(** C4, as stated, fails.  In the run [decrement_unheld] of the table of
    [main] philosopher 0 executes its decrement, from 7 to 6, while its
    left fork is free and has owner -1: the watchdog has released it, and
    philosopher 4 has since taken and released it.  And in the run
    [release_crash] followed by 5 steps of philosopher 0, that thread has
    ended, by the [RuntimeError] of [lock.release()], with 6 of its 7
    units. *)
Lemma decrement_without_left_fork :
  (∃ σ σ' self self' f,
     run decrement_unheld table = Some σ ∧
     philosophers σ !! 0%nat = Some (self, PDec) ∧ spaghetti self = 7 ∧
     forks σ !! left_fork self = Some f ∧
     lock f = false ∧ picked_up f = false ∧ owner f = -1 ∧
     step (TPhil 0) 0 σ = Some σ' ∧ decrements 0 (TPhil 0) σ σ' = true ∧
     philosophers σ' !! 0%nat = Some (self', PEatOn) ∧ spaghetti self' = 6) ∧
  (∃ σ self,
     run (release_crash ++ solo 0 5) table = Some σ ∧
     philosophers σ !! 0%nat = Some (self, PCrashed RuntimeError) ∧
     spaghetti self = 6 ∧ ∀ r, step (TPhil 0) r σ = None).
Proof.
  split.
  - let s0 := eval vm_compute in (run decrement_unheld table) in
    let s1 := eval vm_compute in (run (decrement_unheld ++ solo 0 1) table) in
    match constr:((s0, s1)) with
    | (Some ?a, Some ?b) =>
        exists a, b, (mkPhilosopher 0 0 1 7 false), (mkPhilosopher 0 0 1 6 false),
          (mkFork 0 false false (-1))
    end.
    split; [vm_compute; reflexivity|]. repeat split.
  - let s0 := eval vm_compute in (run (release_crash ++ solo 0 5) table) in
    match s0 with
    | Some ?a => exists a, (mkPhilosopher 0 0 1 6 false)
    end.
    split; [vm_compute; reflexivity|]. repeat split.
Qed.

(** C1 (as amended): in every state of every interleaved run of the
    started table, a philosopher whose [eating] is true is between lines
    59 and 61 of [eat], so [eating] is false again before either
    [__exit__] starts; and if along the run no other thread has written
    the [owner] of a fork while the philosopher held it, then with
    [eating] true the owners of its left and of its right fork both equal
    its index. *)
Theorem eating_implies_both_owned (n m : Z) (σ0 σ : State) (sched : schedule)
    (i : nat) (self : Philosopher) (pc : phil_pc) :
  main_state n m = Ok σ0 → run sched σ0 = Some σ →
  philosophers σ !! i = Some (self, pc) → eating self = true →
  (pc = PSleepEat ∨ pc = PEatOff) ∧
  (undisturbed i sched σ0 = true →
     owner_at σ (left_fork self) = Some (p_index self) ∧
     owner_at σ (right_fork self) = Some (p_index self)).
Proof.
  intros Hmain Hrun Hi He.
  assert (is_Some (philosophers σ0 !! i)) as [x0 Hi0].
  { apply lookup_lt_is_Some. rewrite <- (run_philosophers_length _ _ _ Hrun).
    by eapply lookup_lt_Some. }
  destruct (main_state_philosopher _ _ _ _ _ Hmain Hi0) as (Hpc0 & _ & He0).
  assert (Hin0 : eating_inside x0).
  { intros H. rewrite He0 in H. discriminate. }
  assert (Hown0 : owns_held σ0 x0).
  { intros s. rewrite Hpc0. simpl. discriminate. }
  destruct (eating_inside_run _ _ _ _ _ Hi0 Hin0 Hrun) as (x & Hx & Hin).
  rewrite Hi in Hx. injection Hx as <-.
  pose proof (Hin He) as Hpc. simpl in Hpc. split; [done|].
  intros Hu.
  destruct (owns_held_run _ _ _ _ _ Hi0 Hin0 Hown0 Hrun Hu) as (x & Hx & Hown).
  rewrite Hi in Hx. injection Hx as <-.
  split; [apply (Hown L) | apply (Hown R)]; simpl;
    destruct Hpc as [-> | ->]; reflexivity.
Qed.

(** ** The order of the statements of eat *)

Lemma runs_one t r σ l σ' :
  label_of t σ = Some l → step t r σ = Some σ' → runs σ [(t, r)] [l] σ'.
Proof. intros Hl Hs. unfold runs. simpl. rewrite Hl, Hs. done. Qed.

Lemma step_label t r σ σ' : step t r σ = Some σ' → is_Some (label_of t σ).
Proof.
  destruct t as [i|]; simpl; [|by eexists].
  unfold phil_step. destruct (philosophers σ !! i); simpl; [by eexists|done].
Qed.

Lemma runs_app σ s1 t1 σ1 s2 t2 σ2 :
  runs σ s1 t1 σ1 → runs σ1 s2 t2 σ2 → runs σ (s1 ++ s2) (t1 ++ t2) σ2.
Proof.
  unfold runs. revert σ t1.
  induction s1 as [|[t r] s1 IH]; intros σ t1 [H1 H1'] H2; simpl in *.
  - injection H1 as <-. subst t1. exact H2.
  - destruct (step t r σ) as [σ'|] eqn:Hs; simpl in *; [|done].
    destruct (step_label _ _ _ _ Hs) as [l Hl]. rewrite Hl in *.
    subst t1. destruct (IH σ' (trace s1 σ') (conj H1 eq_refl) H2) as [Hr Ht].
    split; [done|]. simpl. by rewrite Ht.
Qed.

Lemma local_step i fs ps w self pc self' pc' :
  ps !! i = Some (self, pc) →
  match pc with
  | PSleepLeft => self' = self ∧ pc' = PCall R CAcquire
  | PDec => self' = set_spaghetti (spaghetti self - 1) self ∧ pc' = PEatOn
  | PEatOn => self' = set_eating true self ∧ pc' = PSleepEat
  | PSleepEat => self' = self ∧ pc' = PEatOff
  | PEatOff => self' = set_eating false self ∧ pc' = PExit R None XTest
  | _ => False
  end →
  runs (mkState fs ps w) [(TPhil i, 0)] [LPhil i pc]
       (mkState fs (<[i := (self', pc')]> ps) w).
Proof.
  intros Hi H. apply runs_one; simpl; [by rewrite Hi|].
  unfold phil_step. simpl. rewrite Hi. simpl.
  destruct pc; try done; destruct H as [-> ->]; reflexivity.
Qed.

Lemma call_one i fs ps w self s k f f' k' :
  ps !! i = Some (self, PCall s k) → fs !! fork_of self s = Some f →
  call_step k (p_index self) f = Some (f', k') →
  runs (mkState fs ps w) [(TPhil i, 0)] [LPhil i (PCall s k)]
       (mkState (<[fork_of self s := f']> fs)
                (<[i := (self, match k' with Some k' => PCall s k' | None => after_call s end)]> ps) w).
Proof.
  intros Hi Hf Hc. apply runs_one; simpl; [by rewrite Hi|].
  unfold phil_step. simpl. rewrite Hi. simpl. rewrite Hf. simpl. rewrite Hc. reflexivity.
Qed.

Lemma exit_one i fs ps w self s exc k f f' k' :
  ps !! i = Some (self, PExit s exc k) → fs !! fork_of self s = Some f →
  exit_step k f = Ok (f', k') →
  runs (mkState fs ps w) [(TPhil i, 0)] [LPhil i (PExit s exc k)]
       (mkState (<[fork_of self s := f']> fs)
                (<[i := (self, match k' with Some k' => PExit s exc k' | None => after_exit s exc end)]> ps) w).
Proof.
  intros Hi Hf Hc. apply runs_one; simpl; [by rewrite Hi|].
  unfold phil_step. simpl. rewrite Hi. simpl. rewrite Hf. simpl. rewrite Hc. reflexivity.
Qed.

Lemma runs_eq σ s tr1 σ1 tr σ' :
  runs σ s tr1 σ1 → tr1 = tr → σ1 = σ' → runs σ s tr σ'.
Proof. by intros H <- <-. Qed.

Ltac look := rewrite ?list_lookup_insert_eq by (by rewrite ?length_insert); try done.

Lemma call_phase i s fs ps w self f :
  ps !! i = Some (self, PCall s CAcquire) → fs !! fork_of self s = Some f →
  lock f = false →
  runs (mkState fs ps w) (solo i 3)
       (LPhil i <$> [PCall s CAcquire; PCall s CSetOwner; PCall s CSetPicked])
       (mkState (<[fork_of self s := mkFork (index f) true true (p_index self)]> fs)
                (<[i := (self, after_call s)]> ps) w).
Proof.
  intros Hi Hf Hl.
  assert (Hli : (i < length ps)%nat) by (by eapply lookup_lt_Some).
  assert (Hlf : (fork_of self s < length fs)%nat) by (by eapply lookup_lt_Some).
  change (solo i 3) with ([(TPhil i, 0)] ++ [(TPhil i, 0)] ++ [(TPhil i, 0)]).
  eapply runs_eq.
  - eapply runs_app.
    { eapply call_one; [done..|]. simpl. unfold lock_acquire. rewrite Hl. reflexivity. }
    eapply runs_app.
    { eapply call_one; [look..|]. reflexivity. }
    eapply call_one; [look..|]. reflexivity.
  - reflexivity.
  - simpl. by rewrite !list_insert_insert_eq.
Qed.

Lemma exit_phase i s exc fs ps w self f :
  ps !! i = Some (self, PExit s exc XTest) → fs !! fork_of self s = Some f →
  picked_up f = true → lock f = true →
  runs (mkState fs ps w) (solo i 4)
       (LPhil i <$> [PExit s exc XTest; PExit s exc XRelease;
                     PExit s exc XClearPicked; PExit s exc XClearOwner])
       (mkState (<[fork_of self s := mkFork (index f) false false (-1)]> fs)
                (<[i := (self, after_exit s exc)]> ps) w).
Proof.
  intros Hi Hf Hp Hl.
  assert (Hli : (i < length ps)%nat) by (by eapply lookup_lt_Some).
  assert (Hlf : (fork_of self s < length fs)%nat) by (by eapply lookup_lt_Some).
  change (solo i 4) with
    ([(TPhil i, 0)] ++ [(TPhil i, 0)] ++ [(TPhil i, 0)] ++ [(TPhil i, 0)]).
  eapply runs_eq.
  - eapply runs_app.
    { eapply exit_one; [done..|]. simpl. rewrite Hp. reflexivity. }
    eapply runs_app.
    { eapply exit_one; [look..|]. by apply exit_step_release. }
    eapply runs_app.
    { eapply exit_one; [look..|]. reflexivity. }
    eapply exit_one; [look..|]. reflexivity.
  - reflexivity.
  - simpl. by rewrite !list_insert_insert_eq.
Qed.

Lemma eating_phase i fs ps w self :
  ps !! i = Some (self, PDec) →
  runs (mkState fs ps w) (solo i 4)
       (LPhil i <$> [PDec; PEatOn; PSleepEat; PEatOff])
       (mkState fs
          (<[i := (mkPhilosopher (p_index self) (left_fork self) (right_fork self)
                     (spaghetti self - 1) false, PExit R None XTest)]> ps) w).
Proof.
  intros Hi.
  assert (Hli : (i < length ps)%nat) by (by eapply lookup_lt_Some).
  change (solo i 4) with
    ([(TPhil i, 0)] ++ [(TPhil i, 0)] ++ [(TPhil i, 0)] ++ [(TPhil i, 0)]).
  eapply runs_eq.
  - eapply runs_app; [eapply local_step; [done|]; simpl; done|].
    eapply runs_app; [eapply local_step; [look|]; simpl; done|].
    eapply runs_app; [eapply local_step; [look|]; simpl; done|].
    eapply local_step; [look|]; simpl; done.
  - reflexivity.
  - simpl. by rewrite !list_insert_insert_eq.
Qed.

(** C7 (as amended): a call of [eat] that no other thread interferes with,
    on two distinct free forks, executes in this order: acquire the left
    fork, suspend (line 56), acquire the right fork, decrement
    [spaghetti], set [eating] to true, suspend (line 60), set [eating] to
    false, release the right fork, release the left fork; it returns to
    the head of the loop with one unit less, [eating] false and both forks
    free and without owner. *)
Theorem eat_statement_order (σ : State) (i : nat) (self : Philosopher) (l r : Fork) :
  philosophers σ !! i = Some (self, PCall L CAcquire) →
  left_fork self ≠ right_fork self →
  forks σ !! left_fork self = Some l → forks σ !! right_fork self = Some r →
  lock l = false → lock r = false →
  let self' := mkPhilosopher (p_index self) (left_fork self) (right_fork self)
                 (spaghetti self - 1) false in
  let σ' := mkState
      (<[left_fork self := mkFork (index l) false false (-1)]>
         (<[right_fork self := mkFork (index r) false false (-1)]> (forks σ)))
      (<[i := (self', PLoop)]> (philosophers σ)) (watchdog σ) in
  run (solo i 19) σ = Some σ' ∧
  trace (solo i 19) σ = LPhil i <$> eat_statements ∧
  actions (trace (solo i 19) σ) = eat_order.
Proof.
  destruct σ as [fs ps w]. cbn [forks philosophers watchdog].
  intros Hi Hne Hl Hr Hll Hlr.
  assert (Hli : (i < length ps)%nat) by (by eapply lookup_lt_Some).
  assert (Hla : (left_fork self < length fs)%nat) by (by eapply lookup_lt_Some).
  assert (Hlb : (right_fork self < length fs)%nat) by (by eapply lookup_lt_Some).
  set (a := left_fork self) in *. set (b := right_fork self) in *.
  set (L1 := mkFork (index l) true true (p_index self)).
  set (R1 := mkFork (index r) true true (p_index self)).
  set (self' := mkPhilosopher (p_index self) a b (spaghetti self - 1) false).
  enough (H : runs (mkState fs ps w) (solo i 19) (LPhil i <$> eat_statements)
     (mkState (<[a := mkFork (index l) false false (-1)]>
                 (<[b := mkFork (index r) false false (-1)]> fs))
              (<[i := (self', PLoop)]> ps) w)).
  { destruct H as [H1 H2]. split; [done|]. split; [done|].
    rewrite H2. reflexivity. }
  change (solo i 19) with
    (solo i 3 ++ solo i 1 ++ solo i 3 ++ solo i 4 ++ solo i 4 ++ solo i 4).
  eapply runs_eq.
  - eapply runs_app; [by apply (call_phase i L)|]. simpl after_call. fold a L1.
    eapply runs_app; [eapply local_step; [look|]; simpl; done|].
    eapply runs_app.
    { apply (call_phase i R) with (f := r); [look| |done].
      simpl. fold b. by rewrite list_lookup_insert_ne. }
    simpl after_call. simpl fork_of. fold b R1.
    eapply runs_app; [apply eating_phase; look|]. fold a b self'.
    eapply runs_app.
    { apply (exit_phase i R) with (f := R1); [look | | done | done].
      simpl. fold b. look. }
    simpl after_exit. simpl fork_of. simpl index. fold b.
    apply (exit_phase i L) with (f := L1); [look | | done | done].
    simpl. fold a. rewrite list_lookup_insert_ne by done.
    rewrite list_lookup_insert_ne by done. look.
  - reflexivity.
  - simpl. f_equal.
    + rewrite list_insert_insert_eq.
      rewrite (list_insert_insert_ne _ a b) by done.
      rewrite list_insert_insert_eq.
      by rewrite (list_insert_insert_ne _ a b) by done.
    + by rewrite !list_insert_insert_eq.
Qed.

(** ** Runs of the table of main *)

(** C1, as stated, fails: in the run [deadlock_then_release] of the table
    of [main], philosopher 0 has [eating] true while the owner of its left
    fork is -1, the fork having been released by the watchdog and then
    taken and released by philosopher 4. *)
Lemma eating_without_owning_left :
  ∃ σ self,
    main = Ok table ∧
    run deadlock_then_release table = Some σ ∧
    philosophers σ !! 0%nat = Some (self, PSleepEat) ∧
    eating self = true ∧ p_index self = 0 ∧
    owner_at σ (left_fork self) = Some (-1) ∧
    owner_at σ (right_fork self) = Some 0.
Proof.
  eexists _, _. split; [reflexivity|].
  split; [vm_compute; reflexivity|].
  split; [vm_compute; reflexivity|]. repeat split.
Qed.

Lemma eating_implies_both_owned_witness :
  ∃ σ, run (solo 0 11) table = Some σ ∧
       owner_at σ 0 = Some 0 ∧ owner_at σ 1 = Some 0.
Proof.
  eexists. split; [vm_compute; reflexivity|].
  apply (eating_implies_both_owned 5 7 table _ (solo 0 11) 0
           (mkPhilosopher 0 0 1 6 true) PSleepEat);
    [reflexivity | vm_compute; reflexivity | reflexivity | reflexivity
    | vm_compute; reflexivity].
Defined.

(** C3, as stated, fails: when all philosophers of the table of [main]
    have left [run] (the run [all_meals]), every fork is free and no
    philosopher eats; after 16 such samples the watchdog calls [__exit__]
    on the drawn fork 0, and no fork's [picked_up] goes from true to
    false. *)
Lemma stall_release_on_free_fork :
  ∃ σ outs,
    run all_meals table = Some σ ∧
    Forall stalled (replicate 16 (0, philosophers σ, forks σ)) ∧
    watch (watchdog σ) (replicate 16 (0, philosophers σ, forks σ)) =
      Some (outs, mkWatchdog 0 WSample) ∧
    (λ o, forced_releases o.1) <$> outs = replicate 15 [] ++ [[WExit 0 XTest]] ∧
    Forall (λ o, forks o.2 = forks σ) outs ∧
    ¬ some_fork_released (forks σ) (forks σ).
Proof.
  eexists _, _.
  split; [vm_compute; reflexivity|].
  split.
  { apply Forall_replicate. unfold stalled. vm_compute. intros [H|H]; discriminate H. }
  split; [vm_compute; reflexivity|].
  split; [reflexivity|]. split; [repeat constructor|].
  intros (j & f & f' & H1 & _ & H3 & _). simpl in H1.
  repeat (destruct j as [|j]; simpl in H1; simplify_eq; try discriminate H3).
Qed.

Lemma stall_recovery_witness :
  run deadlock table = Some deadlocked ∧
  ∃ outs tr σ',
    watch (mkWatchdog 0 WSample)
      (replicate 15 (0, philosophers deadlocked, forks deadlocked) ++
       [(0, philosophers deadlocked, forks deadlocked)]) =
      Some (outs ++ [(tr, σ')], mkWatchdog 0 WSample) ∧
    forced_releases tr = [WExit 0 XTest] ∧
    some_fork_released (forks deadlocked) (forks σ').
Proof.
  split; [vm_compute; reflexivity|].
  destruct (stall_recovery
      (replicate 15 (0, philosophers deadlocked, forks deadlocked)) 0
      (philosophers deadlocked) (forks deadlocked) (mkFork 0 true true 0))
    as (outs & tr & σ' & Hw & _ & Hf & _ & Hheld & _).
  - reflexivity.
  - apply Forall_replicate. unfold stalled. vm_compute.
    intros [H|H]; discriminate H.
  - unfold stalled. vm_compute. intros [H|H]; discriminate H.
  - simpl. lia.
  - reflexivity.
  - destruct (Hheld eq_refl eq_refl) as (Hwd & _ & Hrel).
    rewrite Hwd in Hw.
    exists outs, tr, σ'. split; [exact Hw|]. split; [exact Hf|].
    exact Hrel.
Defined.

(** C7, as stated, fails: the call of [eat] by philosopher 0 of the table
    of [main], after its first [think], executes the statements in the
    order [eat_order]: the decrement comes before [eating = True], and a
    suspension separates the two acquisitions. *)
Lemma eat_order_not_as_specified :
  ∃ σ, run (solo 0 2) table = Some σ ∧
       pc_of 0 σ = Some (PCall L CAcquire) ∧
       actions (trace (solo 0 19) σ) = eat_order ∧
       actions (trace (solo 0 19) σ) ≠ specified_eat_order.
Proof.
  eexists. split; [vm_compute; reflexivity|]. split; [reflexivity|].
  split; [reflexivity|]. vm_compute. intros H. discriminate H.
Qed.

Lemma eat_statement_order_witness :
  ∃ σ σ', run (solo 0 2) table = Some σ ∧
          run (solo 0 19) σ = Some σ' ∧
          actions (trace (solo 0 19) σ) = eat_order ∧
          philosophers σ' !! 0%nat = Some (mkPhilosopher 0 0 1 6 false, PLoop).
Proof.
  eexists _, _. split; [vm_compute; reflexivity|].
  edestruct (eat_statement_order
               (mkState (forks table)
                  (<[0%nat := (mkPhilosopher 0 0 1 7 false, PCall L CAcquire)]>
                     (philosophers table)) (watchdog table))
               0 (mkPhilosopher 0 0 1 7 false) (Fork_init 0) (Fork_init 1))
    as (H1 & _ & H3);
    [reflexivity | simpl; lia | reflexivity | reflexivity | reflexivity
    | reflexivity | ].
  split; [exact H1|]. split; [exact H3|]. reflexivity.
Defined.

Lemma spaghetti_consumption_witness :
  ∃ σ self, run (solo 0 9) table = Some σ ∧
            philosophers σ !! 0%nat = Some (self, PDec) ∧
            0 ≤ spaghetti self ≤ 7 ∧
            owner_at σ (left_fork self) = Some (p_index self) ∧
            owner_at σ (right_fork self) = Some (p_index self).
Proof.
  let s0 := eval vm_compute in (run (solo 0 9) table) in
  match s0 with
  | Some ?a =>
      exists a, (mkPhilosopher 0 0 1 7 false);
      destruct (spaghetti_consumption 5 7 table a (solo 0 9) 0
                  (mkPhilosopher 0 0 1 7 false) PDec)
        as (Hb & _ & _ & _ & _ & Hown);
      [lia | reflexivity | vm_compute; reflexivity | reflexivity |]
  end.
  split; [vm_compute; reflexivity|]. split; [reflexivity|].
  split; [exact Hb|]. apply Hown; [reflexivity | vm_compute; reflexivity].
Defined.

Lemma watchdog_iteration_witness :
  ∃ tr, check_forks_iter 0 table =
          Some (tr, set_watchdog (mkWatchdog 1 WSample) table) ∧
        forced_releases tr = [].
Proof.
  destruct (watchdog_iteration 0 table) as (_ & H & _); [reflexivity|].
  apply H; [|simpl; lia].
  unfold healthy. vm_compute. intros [H1|H1]; discriminate H1.
Defined.

Lemma watchdog_ignores_spaghetti_witness :
  philosophers (set_watchdog (mkWatchdog 0 (WTest 0)) table) = philosophers table.
Proof.
  apply (watchdog_ignores_spaghetti 0 table
           (set_watchdog (mkWatchdog 0 (WTest 0)) table)).
  reflexivity.
Defined.

Lemma forced_release_index_in_range_witness :
  is_Some (wd_step 3 (set_watchdog (mkWatchdog 16 WRandint) table)) ↔
  0 ≤ 3 ≤ 4.
Proof.
  destruct (forced_release_index_in_range
              (set_watchdog (mkWatchdog 16 WRandint) table)) as [H _];
    [reflexivity|].
  destruct H as [H _]; [simpl; lia|]. exact (H 3).
Defined.

(** ** Further properties of the forks, the table and the watchdog *)

(** X1: on a fork whose lock is free, [__call__(o)] returns with the lock
    held, [picked_up] set and owner [o], whatever the fields were before;
    a second [__call__] on the fork it returns would block; and
    [__exit__] then gives back the free fork: lock released, [picked_up]
    false, owner -1, same index. *)
Theorem call_then_exit_restores (o : Z) (self : Fork) :
  lock self = false →
  ∃ held,
    Fork_call o self = Some held ∧
    held = mkFork (index self) true true o ∧
    (∀ o', Fork_call o' held = None) ∧
    Fork_exit held = Ok (mkFork (index self) false false (-1)) ∧
    match Fork_exit held with
    | Ok free => Fork_call o free = Some held
    | Raise _ => False
    end.
Proof.
  intros Hl. exists (mkFork (index self) true true o).
  split. { unfold Fork_call, lock_acquire. rewrite Hl. reflexivity. }
  split; [reflexivity|]. split; [intros o'; reflexivity|].
  split; reflexivity.
Qed.

Lemma call_then_exit_restores_witness :
  Fork_exit (mkFork 3 true true 2) = Ok (Fork_init 3).
Proof.
  destruct (call_then_exit_restores 2 (Fork_init 3)) as (held & _ & -> & _ & H & _);
    [reflexivity|]. exact H.
Defined.

Lemma exit_step_only_released k f f' k' :
  exit_step k f = Ok (f', k') → only_released f f'.
Proof.
  unfold only_released, exit_step, lock_release.
  destruct f as [i l p o]; destruct k, l; simpl; intros H; simplify_eq;
    simpl; repeat split; auto; try discriminate.
Qed.

Lemma only_released_refl f : only_released f f.
Proof. unfold only_released. auto. Qed.

(** X2: a step of the watchdog never takes a lock, never marks a fork as
    picked up and never makes anybody owner: it keeps the number of forks,
    and every fork is afterwards as before, or with its lock released,
    its [picked_up] cleared or its owner reset to -1. *)
Theorem watchdog_only_releases (r : Z) (σ σ' : State) :
  wd_step r σ = Some σ' →
  length (forks σ') = length (forks σ) ∧
  ∀ j f f', forks σ !! j = Some f → forks σ' !! j = Some f' →
    only_released f f'.
Proof.
  destruct σ as [fs ps [s pc]]. rewrite wd_step_mk. intros H.
  assert (Hsame : ∀ σ1, σ1 = σ' → forks σ1 = fs →
            length (forks σ') = length fs ∧
            ∀ j f f', fs !! j = Some f → forks σ' !! j = Some f' →
              only_released f f').
  { intros ? <- ->. split; [done|]. intros j f f' H1 H2.
    rewrite H1 in H2. injection H2 as <-. apply only_released_refl. }
  simpl.
  destruct pc; simplify_eq; try (by eapply Hsame).
  - destruct (randint _ _); [case_decide|]; simplify_eq; by eapply Hsame.
  - destruct (py_pos _ _); simplify_eq; by eapply Hsame.
  - destruct (fs !! fork) as [f0|] eqn:Ef; simpl in H; [|done].
    destruct (exit_step k f0) as [[f1 ?]|] eqn:Ex; simplify_eq;
      [|by eapply Hsame].
    simpl. split; [apply length_insert|].
    intros j f f' H1 H2. destruct (decide (fork = j)) as [->|Hne].
    + rewrite list_lookup_insert_eq in H2 by (by eapply lookup_lt_Some).
      simplify_eq. by eapply exit_step_only_released.
    + rewrite list_lookup_insert_ne in H2 by done.
      simplify_eq. apply only_released_refl.
Qed.

Lemma watchdog_only_releases_witness :
  length (forks (set_watchdog (mkWatchdog 0 (WTest 0)) table)) = length (forks table).
Proof.
  apply (watchdog_only_releases 0 table
           (set_watchdog (mkWatchdog 0 (WTest 0)) table)).
  reflexivity.
Defined.

Lemma phil_step_touches i σ σ' self pc :
  philosophers σ !! i = Some (self, pc) → phil_step i σ = Some σ' →
  forks σ' = forks σ ∨
  ∃ s f f', forks σ !! fork_of self s = Some f ∧
            forks σ' = <[fork_of self s := f']> (forks σ) ∧
            index f' = index f.
Proof.
  unfold phil_step. intros Hi H. rewrite Hi in H. simpl in H.
  destruct pc as [| |s k| | | | | |s exc k| |]; simplify_eq; try (by left).
  - destruct (forks σ !! fork_of self s) as [f|] eqn:Ef; simpl in H; [|done].
    destruct (call_step k (p_index self) f) as [[f' k']|] eqn:E; simpl in H; [|done].
    simplify_eq. right. exists s, f, f'. split; [done|]. split; [done|].
    destruct k; simpl in E; simplify_eq; try done.
    unfold lock_acquire in E. destruct (lock f); simpl in E; by simplify_eq.
  - destruct (forks σ !! fork_of self s) as [f|] eqn:Ef; simpl in H; [|done].
    destruct (exit_step k f) as [[f' k']|] eqn:E; simplify_eq; [|by left].
    right. exists s, f, f'. split; [done|]. split; [done|].
    by eapply exit_step_index.
Qed.

(** X3: a step of philosopher [i] leaves the watchdog and every other
    philosopher as they are, keeps its own index and fork references, and
    of the forks it can change only its left or its right one, never a
    fork's [index]. *)
Theorem philosopher_step_frame (i : nat) (σ σ' : State)
    (self : Philosopher) (pc : phil_pc) :
  philosophers σ !! i = Some (self, pc) → phil_step i σ = Some σ' →
  watchdog σ' = watchdog σ ∧
  (∀ j, j ≠ i → philosophers σ' !! j = philosophers σ !! j) ∧
  (∃ self' pc', philosophers σ' !! i = Some (self', pc') ∧
     p_index self' = p_index self ∧ left_fork self' = left_fork self ∧
     right_fork self' = right_fork self) ∧
  (∀ j, j ≠ left_fork self → j ≠ right_fork self →
     forks σ' !! j = forks σ !! j) ∧
  index <$> forks σ' = index <$> forks σ.
Proof.
  intros Hi H.
  destruct (phil_step_own _ _ _ H) as (self0 & pc0 & self' & pc' & Hi0 & Hps & Hw & Hown).
  rewrite Hi in Hi0. injection Hi0 as <- <-.
  split; [done|]. split.
  { intros j Hj. rewrite Hps. by apply list_lookup_insert_ne. }
  split.
  { exists self', pc'. split.
    - rewrite Hps. apply list_lookup_insert_eq. by eapply lookup_lt_Some.
    - destruct pc as [| |s k| | | | | |s exc k| |]; simpl in Hown; try done;
        try destruct k; destruct Hown as [-> _]; done. }
  destruct (phil_step_touches _ _ _ _ _ Hi H) as [->|(s & f & f' & Hf & -> & Hidx)];
    [done|].
  split.
  - intros j Hl Hr. apply list_lookup_insert_ne. destruct s; simpl; congruence.
  - rewrite list_fmap_insert. apply list_insert_id.
    rewrite list_lookup_fmap, Hf. simpl. by rewrite Hidx.
Qed.

Lemma philosopher_step_frame_witness :
  ∃ σ', phil_step 0 table = Some σ' ∧ watchdog σ' = watchdog table.
Proof.
  eexists. split; [reflexivity|].
  eapply (philosopher_step_frame 0 table _ (mkPhilosopher 0 0 1 7 false) PLoop);
    reflexivity.
Defined.

(** X4: the ring [main] builds for [n] philosophers: at every position
    [i < n] there is the free fork with index [i] and the philosopher with
    index [i], [m] units, not eating, whose left fork is fork [i] and
    whose right fork is fork [(i + 1) % n], a fork of the table; no other
    philosopher has the same right fork; for [n ≥ 2] its two forks are
    distinct, and for [n = 1] they are the same fork. *)
Theorem ring_wiring (n m : Z) (i : nat) :
  Z.of_nat i < n →
  let right := Z.to_nat ((Z.of_nat i + 1) `mod` n) in
  (ring n m).1 !! i = Some (Fork_init (Z.of_nat i)) ∧
  (ring n m).2 !! i = Some (mkPhilosopher (Z.of_nat i) i right m false) ∧
  (right < length (ring n m).1)%nat ∧
  (∀ j self, (ring n m).2 !! j = Some self → right_fork self = right → j = i) ∧
  (2 ≤ n → right ≠ i) ∧
  (n = 1 → right = i).
Proof.
  intros Hi right.
  assert (Hright : right = if decide (Z.of_nat i + 1 = n) then 0%nat else S i).
  { unfold right. case_decide as Hn.
    - rewrite Hn, Z_mod_same_full. reflexivity.
    - rewrite Z.mod_small by lia. lia. }
  unfold ring. simpl. rewrite !list_lookup_fmap.
  unfold range. rewrite lookup_seqZ_lt by done. simpl.
  split; [done|]. split.
  { unfold Philosopher_init. by rewrite Z.add_0_l, Nat2Z.id. }
  split.
  { rewrite length_fmap, length_seqZ, Hright. case_decide; lia. }
  split.
  { intros j self. rewrite list_lookup_fmap.
    destruct (seqZ 0 n !! j) as [z|] eqn:Ej; simpl; [|done].
    apply lookup_seqZ in Ej as [-> Hj]. intros [= <-]. simpl.
    rewrite Hright.
    destruct (decide (0 + Z.of_nat j + 1 = n)) as [Hn|Hn].
    - replace (0 + Z.of_nat j + 1) with n by lia. rewrite Z_mod_same_full.
      case_decide; lia.
    - rewrite Z.mod_small by lia. case_decide; lia. }
  rewrite Hright. split; intros Hn; case_decide; lia.
Qed.

Lemma ring_wiring_witness :
  (ring 5 7).2 !! 4%nat = Some (mkPhilosopher 4 4 0 7 false).
Proof.
  destruct (ring_wiring 5 7 4) as (_ & H & _); [lia|]. exact H.
Defined.

Lemma foldl_add_acc (l : list Z) : ∀ a, foldl Z.add a l = a + foldl Z.add 0 l.
Proof.
  induction l as [|x l IH]; intros a; simpl; [lia|].
  rewrite (IH (a + x)), (IH (0 + x)). lia.
Qed.

Lemma py_sum_cons x l : py_sum (x :: l) = x + py_sum l.
Proof. unfold py_sum. simpl. rewrite foldl_add_acc. lia. Qed.

(** X5: the sum that [check_forks] computes is the number of philosophers
    whose [eating] is true; it lies between 0 and the number of
    philosophers, and it is 0 exactly when nobody eats. *)
Theorem count_eating_counts (ps : list (Philosopher * phil_pc)) :
  count_eating ps = Z.of_nat (length (eaters ps)) ∧
  0 ≤ count_eating ps ≤ Z.of_nat (length ps) ∧
  (count_eating ps = 0 ↔ ∀ p, p ∈ ps → eating p.1 = false).
Proof.
  assert (H : count_eating ps = Z.of_nat (length (eaters ps))).
  { unfold count_eating, eaters.
    induction ps as [|[p pc] ps IH]; [done|].
    rewrite fmap_cons, py_sum_cons, IH, filter_cons. simpl.
    destruct (eating p); simpl; lia. }
  split; [done|]. split.
  { rewrite H. pose proof (length_filter (λ p, eating p.1 = true) ps).
    unfold eaters. lia. }
  rewrite H. clear H. unfold eaters. split.
  - intros H0 p Hp. destruct (eating p.1) eqn:E; [|done].
    assert (p ∈ filter (λ p, eating p.1 = true) ps) as Hin
      by (apply list_elem_of_filter; done).
    destruct (filter _ ps); [by apply elem_of_nil in Hin|simpl in H0; lia].
  - intros Hall. induction ps as [|x ps IH]; [done|].
    rewrite filter_cons_False.
    + apply IH. intros p Hp. apply Hall. by right.
    + rewrite (Hall x) by left. done.
Qed.

Lemma wd_step_counter r σ σ' :
  wd_step r σ = Some σ' → counter_inv (watchdog σ) → counter_inv (watchdog σ').
Proof.
  destruct σ as [fs ps [s pc]]. rewrite wd_step_mk. unfold counter_inv. simpl.
  intros H Hinv.
  destruct pc; simplify_eq; simpl; try lia.
  - case_decide; simpl; lia.
  - case_decide; simpl; lia.
  - destruct (randint _ _); [case_decide|]; simplify_eq; simpl; lia.
  - destruct (py_pos _ _); simplify_eq; simpl; lia.
  - destruct (fs !! fork) as [f|]; simpl in H; [|done].
    destruct (exit_step k f) as [[? [?|]]|]; simplify_eq; simpl; lia.
Qed.

Lemma run_counter sched : ∀ σ σ',
  run sched σ = Some σ' → counter_inv (watchdog σ) → counter_inv (watchdog σ').
Proof.
  induction sched as [|[t r] sched IH]; intros σ σ'; simpl.
  - by intros [= ->].
  - destruct (step t r σ) as [σ1|] eqn:E; simpl; [|done].
    intros Hrun Hinv. apply (IH _ _ Hrun).
    destruct t as [i|]; simpl in E.
    + apply phil_step_own in E as (? & ? & ? & ? & _ & _ & -> & _). done.
    + by eapply wd_step_counter.
Qed.

(** X6: in every state of every interleaved run of the started table the
    stall counter of the watchdog lies between 0 and 16; and whenever the
    watchdog is inside the [fork.__exit__] of its forced release (line
    189), or has been ended by an exception, the counter is exactly 16. *)
Theorem stall_counter_bounded (n m : Z) (σ0 σ : State) (sched : schedule) :
  main_state n m = Ok σ0 → run sched σ0 = Some σ →
  0 ≤ system_time (watchdog σ) ≤ 16 ∧
  (∀ j k, wpc (watchdog σ) = WExit j k → system_time (watchdog σ) = 16) ∧
  (∀ e, wpc (watchdog σ) = WCrashed e → system_time (watchdog σ) = 16).
Proof.
  intros Hmain Hrun.
  assert (H0 : counter_inv (watchdog σ0)).
  { unfold main_state in Hmain. rewrite main_table_ring in Hmain.
    simpl in Hmain. injection Hmain as <-. unfold counter_inv. simpl. lia. }
  pose proof (run_counter _ _ _ Hrun H0) as H. unfold counter_inv in H.
  split; [destruct (wpc (watchdog σ)); lia|].
  split; [intros j k E | intros e E]; rewrite E in H; done.
Qed.

Lemma stall_counter_bounded_witness :
  ∃ σ, run (deadlock ++ replicate 80 (TWatchdog, 0)) table = Some σ ∧
       0 ≤ system_time (watchdog σ) ≤ 16.
Proof.
  eexists. split; [vm_compute; reflexivity|].
  eapply (stall_counter_bounded 5 7 table _ (deadlock ++ replicate 80 (TWatchdog, 0)));
    [reflexivity | vm_compute; reflexivity].
Defined.

(** ** A philosopher alone, and the deadlock of the ring *)

Lemma loop_step i fs ps w self :
  ps !! i = Some (self, PLoop) →
  runs (mkState fs ps w) [(TPhil i, 0)] [LPhil i PLoop]
       (mkState fs (<[i := (self, if decide (spaghetti self > 0)
                                  then PThink else PDone)]> ps) w).
Proof.
  intros Hi. apply runs_one; simpl; [by rewrite Hi|].
  unfold phil_step. simpl. rewrite Hi. reflexivity.
Qed.

Lemma think_step i fs ps w self :
  ps !! i = Some (self, PThink) →
  runs (mkState fs ps w) [(TPhil i, 0)] [LPhil i PThink]
       (mkState fs (<[i := (self, PCall L CAcquire)]> ps) w).
Proof.
  intros Hi. apply runs_one; simpl; [by rewrite Hi|].
  unfold phil_step. simpl. rewrite Hi. reflexivity.
Qed.

Lemma think_runs i fs ps w self :
  ps !! i = Some (self, PLoop) → spaghetti self > 0 →
  runs (mkState fs ps w) (solo i 2) [LPhil i PLoop; LPhil i PThink]
       (mkState fs (<[i := (self, PCall L CAcquire)]> ps) w).
Proof.
  intros Hi Hs.
  assert (Hli : (i < length ps)%nat) by (by eapply lookup_lt_Some).
  change (solo i 2) with ([(TPhil i, 0)] ++ [(TPhil i, 0)]).
  eapply runs_eq.
  - eapply runs_app; [by apply loop_step|].
    rewrite decide_True by done. apply think_step. look.
  - reflexivity.
  - by rewrite list_insert_insert_eq.
Qed.

Lemma eat_runs i fs ps w self l r :
  ps !! i = Some (self, PCall L CAcquire) →
  left_fork self ≠ right_fork self →
  fs !! left_fork self = Some l → fs !! right_fork self = Some r →
  lock l = false → lock r = false →
  runs (mkState fs ps w) (solo i 19) (LPhil i <$> eat_statements)
    (mkState
       (<[left_fork self := mkFork (index l) false false (-1)]>
          (<[right_fork self := mkFork (index r) false false (-1)]> fs))
       (<[i := (mkPhilosopher (p_index self) (left_fork self) (right_fork self)
                  (spaghetti self - 1) false, PLoop)]> ps) w).
Proof.
  intros Hi Hne Hl Hr Hll Hlr.
  assert (Hli : (i < length ps)%nat) by (by eapply lookup_lt_Some).
  assert (Hla : (left_fork self < length fs)%nat) by (by eapply lookup_lt_Some).
  assert (Hlb : (right_fork self < length fs)%nat) by (by eapply lookup_lt_Some).
  set (a := left_fork self) in *. set (b := right_fork self) in *.
  set (L1 := mkFork (index l) true true (p_index self)).
  set (R1 := mkFork (index r) true true (p_index self)).
  set (self' := mkPhilosopher (p_index self) a b (spaghetti self - 1) false).
  change (solo i 19) with
    (solo i 3 ++ solo i 1 ++ solo i 3 ++ solo i 4 ++ solo i 4 ++ solo i 4).
  eapply runs_eq.
  - eapply runs_app; [by apply (call_phase i L)|]. simpl after_call. fold a L1.
    eapply runs_app; [eapply local_step; [look|]; simpl; done|].
    eapply runs_app.
    { apply (call_phase i R) with (f := r); [look| |done].
      simpl. fold b. by rewrite list_lookup_insert_ne. }
    simpl after_call. simpl fork_of. fold b R1.
    eapply runs_app; [apply eating_phase; look|]. fold a b self'.
    eapply runs_app.
    { apply (exit_phase i R) with (f := R1); [look | | done | done].
      simpl. fold b. look. }
    simpl after_exit. simpl fork_of. simpl index. fold b.
    apply (exit_phase i L) with (f := L1); [look | | done | done].
    simpl. fold a. rewrite list_lookup_insert_ne by done.
    rewrite list_lookup_insert_ne by done. look.
  - reflexivity.
  - simpl. f_equal.
    + rewrite list_insert_insert_eq.
      rewrite (list_insert_insert_ne _ a b) by done.
      rewrite list_insert_insert_eq.
      by rewrite (list_insert_insert_ne _ a b) by done.
    + by rewrite !list_insert_insert_eq.
Qed.

Lemma free_eq f : free f → mkFork (index f) false false (-1) = f.
Proof. destruct f as [i l p o]. unfold free. simpl. by intros (-> & -> & ->). Qed.

Lemma solo_add i a b : solo i (a + b) = solo i a ++ solo i b.
Proof. unfold solo. apply replicate_add. Qed.

Lemma solo_meals (k : nat) : ∀ fs ps w i self l r,
  ps !! i = Some (self, PLoop) → spaghetti self = Z.of_nat k →
  (k = 0%nat ∨ eating self = false) →
  left_fork self ≠ right_fork self →
  fs !! left_fork self = Some l → fs !! right_fork self = Some r →
  free l → free r →
  run (solo i (21 * k + 1)) (mkState fs ps w) =
    Some (mkState fs (<[i := (set_spaghetti 0 self, PDone)]> ps) w).
Proof.
  induction k as [|k IH]; intros fs ps w i self l r Hi Hs He Hne Hl Hr Hfl Hfr.
  - simpl. unfold phil_step. simpl. rewrite Hi. simpl.
    rewrite decide_False by lia. simpl.
    destruct self as [a b c d e]. simpl in Hs. subst d. reflexivity.
  - assert (Hli : (i < length ps)%nat) by (by eapply lookup_lt_Some).
    replace (21 * S k + 1)%nat with (2 + (19 + (21 * k + 1)))%nat by lia.
    rewrite (solo_add i 2), (solo_add i 19), !run_app.
    destruct (think_runs i fs ps w self Hi) as [-> _]; [lia|].
    cbn [mbind option_bind]. rewrite run_app.
    destruct (eat_runs i fs (<[i := (self, PCall L CAcquire)]> ps) w self l r)
      as [-> _]; [look | done.. | by destruct Hfl | by destruct Hfr |].
    cbn [mbind option_bind].
    rewrite (free_eq l Hfl), (free_eq r Hfr).
    rewrite (list_insert_id fs (right_fork self) r Hr).
    rewrite (list_insert_id fs (left_fork self) l Hl).
    rewrite list_insert_insert_eq.
    erewrite (IH fs _ w i _ l r); [|look|simpl; lia|by right|done..].
    rewrite list_insert_insert_eq. unfold set_spaghetti. simpl.
    destruct He as [|He]; [done|]. by rewrite He.
Qed.

(** X7: a philosopher that no other thread interferes with, at the head of
    its loop with [k ≥ 0] units and two distinct free forks, leaves [run]
    after [21 * k + 1] steps with 0 units; the forks, the other
    philosophers and the watchdog are then as they were at the start. *)
Theorem solo_run_terminates (σ : State) (i k : nat) (self : Philosopher)
    (l r : Fork) :
  philosophers σ !! i = Some (self, PLoop) → spaghetti self = Z.of_nat k →
  eating self = false → left_fork self ≠ right_fork self →
  forks σ !! left_fork self = Some l → forks σ !! right_fork self = Some r →
  free l → free r →
  run (solo i (21 * k + 1)) σ =
    Some (set_philosopher i (set_spaghetti 0 self, PDone) σ).
Proof.
  destruct σ as [fs ps w]. unfold set_philosopher.
  cbn [forks philosophers watchdog].
  intros Hi Hs He Hne Hl Hr Hfl Hfr.
  by apply (solo_meals k fs ps w i self l r); auto.
Qed.

Lemma solo_run_terminates_witness :
  run (solo 0 148) table =
    Some (set_philosopher 0 (mkPhilosopher 0 0 1 0 false, PDone) table).
Proof.
  apply (solo_run_terminates table 0 7 (mkPhilosopher 0 0 1 7 false)
           (Fork_init 0) (Fork_init 1));
    first [reflexivity | simpl; lia | repeat split].
Defined.

Lemma take_left_runs i fs ps w self l :
  ps !! i = Some (self, PLoop) → spaghetti self > 0 →
  fs !! left_fork self = Some l → lock l = false →
  run (solo i 6) (mkState fs ps w) =
    Some (mkState
            (<[left_fork self := mkFork (index l) true true (p_index self)]> fs)
            (<[i := (self, PCall R CAcquire)]> ps) w).
Proof.
  intros Hi Hs Hl Hll.
  assert (Hli : (i < length ps)%nat) by (by eapply lookup_lt_Some).
  change (solo i 6) with (solo i 2 ++ solo i 3 ++ solo i 1).
  eapply (runs_eq _ _ _ _ _ _).
  - eapply runs_app; [by apply think_runs|].
    eapply runs_app; [apply (call_phase i L) with (f := l); [look|done|done]|].
    simpl after_call. eapply local_step; [look|]. simpl. done.
  - reflexivity.
  - by rewrite !list_insert_insert_eq.
Qed.

Lemma ring_lookup n m j :
  (j < Z.to_nat n)%nat →
  (ring n m).1 !! j = Some (Fork_init (Z.of_nat j)) ∧
  (ring n m).2 !! j = Some (seat n m j).
Proof.
  intros Hj. unfold ring, range, seat. simpl. rewrite !list_lookup_fmap.
  rewrite lookup_seqZ_lt by lia. simpl. split; [done|].
  unfold Philosopher_init. by rewrite Z.add_0_l, Nat2Z.id.
Qed.

Lemma left_taken_start n m : left_taken n m 0 (start (ring n m)).
Proof.
  unfold left_taken. cbn [start forks philosophers].
  split; [|split].
  - unfold ring. simpl. by rewrite length_fmap, length_range.
  - unfold ring. simpl. by rewrite !length_fmap, length_range.
  - intros j Hj. destruct (ring_lookup n m j Hj) as [H1 H2].
    split; [exact H1|]. by rewrite list_lookup_fmap, H2.
Qed.

Lemma left_taken_step n m k σ :
  left_taken n m k σ → (k < Z.to_nat n)%nat → 0 < m →
  ∃ σ', run (solo k 6) σ = Some σ' ∧ left_taken n m (S k) σ'.
Proof.
  destruct σ as [fs ps w]. unfold left_taken. simpl.
  intros (Hlf & Hlp & Hall) Hk Hm.
  destruct (Hall k Hk) as [Hf Hp].
  rewrite decide_False in Hf by lia. rewrite decide_False in Hp by lia.
  eexists. split.
  - apply (take_left_runs k fs ps w (seat n m k) (Fork_init (Z.of_nat k)));
      [done | simpl; lia | done | done].
  - simpl. rewrite !length_insert. split; [done|]. split; [done|].
    intros j Hj. destruct (Hall j Hj) as [Hfj Hpj].
    destruct (decide (j = k)) as [->|Hne].
    + rewrite !list_lookup_insert_eq by lia.
      rewrite !decide_True by lia. done.
    + rewrite !list_lookup_insert_ne by done. rewrite Hfj, Hpj.
      destruct (decide (j < k)%nat); [rewrite !decide_True by lia
                                     |rewrite !decide_False by lia]; done.
Qed.

Lemma take_left_all_S k : take_left_all (S k) = take_left_all k ++ solo k 6.
Proof.
  unfold take_left_all. rewrite seq_S, flat_map_app. simpl.
  by rewrite ?app_nil_r.
Qed.

Lemma left_taken_run n m k :
  (k ≤ Z.to_nat n)%nat → 0 < m →
  ∃ σ, run (take_left_all k) (start (ring n m)) = Some σ ∧ left_taken n m k σ.
Proof.
  intros Hk Hm. induction k as [|k IH].
  - exists (start (ring n m)). split; [done|]. apply left_taken_start.
  - destruct IH as (σ & Hrun & Hinv); [lia|].
    destruct (left_taken_step n m k σ Hinv) as (σ' & Hrun' & Hinv'); [lia|done|].
    exists σ'. split; [|done].
    rewrite take_left_all_S, run_app, Hrun. done.
Qed.

(** X8: the left-then-right order deadlocks the ring of any size.  For
    [m > 0], when every philosopher of the started table in turn thinks,
    takes its left fork and sleeps, every fork is held by the philosopher
    on its right, nobody eats, and no philosopher can take another step:
    each waits for the lock of its right fork.  Only the watchdog can
    move. *)
Theorem left_first_deadlock (n m : Z) :
  0 < m →
  ∃ σ, run (take_left_all (Z.to_nat n)) (start (ring n m)) = Some σ ∧
       (∀ j, (j < Z.to_nat n)%nat →
          forks σ !! j = Some (held_by_own j) ∧
          philosophers σ !! j = Some (seat n m j, PCall R CAcquire)) ∧
       (∀ i r, step (TPhil i) r σ = None) ∧
       count_eating (philosophers σ) = 0.
Proof.
  intros Hm.
  destruct (left_taken_run n m (Z.to_nat n)) as (σ & Hrun & Hlf & Hlp & Hall);
    [lia|done|].
  exists σ. split; [done|].
  assert (Hheld : ∀ j, (j < Z.to_nat n)%nat →
            forks σ !! j = Some (held_by_own j) ∧
            philosophers σ !! j = Some (seat n m j, PCall R CAcquire)).
  { intros j Hj. destruct (Hall j Hj) as [H1 H2].
    rewrite decide_True in H1 by done. by rewrite decide_True in H2 by done. }
  split; [done|]. split.
  - intros i r. simpl. unfold phil_step.
    destruct (decide (i < Z.to_nat n)%nat) as [Hi|Hi].
    + destruct (Hheld i Hi) as [_ ->]. simpl.
      assert (Hr : (Z.to_nat ((Z.of_nat i + 1) `mod` n) < Z.to_nat n)%nat).
      { pose proof (Z.mod_pos_bound (Z.of_nat i + 1) n). lia. }
      destruct (Hheld _ Hr) as [-> _]. reflexivity.
    + rewrite lookup_ge_None_2 by lia. reflexivity.
  - assert (Hnone : ∀ p, p ∈ philosophers σ → eating p.1 = false).
    { intros p Hp. apply list_elem_of_lookup in Hp as [j Hj].
      assert (Hjn : (j < Z.to_nat n)%nat).
      { rewrite <- Hlp. by eapply lookup_lt_Some. }
      destruct (Hheld j Hjn) as [_ H2]. rewrite H2 in Hj.
      by injection Hj as <-. }
    clear -Hnone. unfold count_eating.
    induction (philosophers σ) as [|x ps IH]; [done|].
    rewrite fmap_cons, py_sum_cons, IH.
    + rewrite (Hnone x) by left. done.
    + intros p Hp. apply Hnone. by right.
Qed.

Lemma left_first_deadlock_witness :
  ∃ σ, run (take_left_all (Z.to_nat 5)) (start (ring 5 7)) = Some σ ∧
       step (TPhil 2) 0 σ = None.
Proof.
  destruct (left_first_deadlock 5 7) as (σ & Hrun & _ & Hblocked & _); [lia|].
  exists σ. split; [exact Hrun | apply Hblocked].
Defined.

(** ** Mutual exclusion *)

Lemma lock_insert_same (fs : list Fork) a f f' j :
  fs !! a = Some f → lock f' = lock f →
  lock <$> (<[a := f']> fs) !! j = lock <$> fs !! j.
Proof.
  intros Ha Hl. destruct (decide (a = j)) as [<-|Hne].
  - rewrite list_lookup_insert_eq by (by eapply lookup_lt_Some).
    rewrite Ha. simpl. by rewrite Hl.
  - by rewrite list_lookup_insert_ne.
Qed.

Lemma phil_step_lock_cases i σ σ' :
  phil_step i σ = Some σ' →
  ∃ self pc self' pc',
    philosophers σ !! i = Some (self, pc) ∧
    philosophers σ' = <[i := (self', pc')]> (philosophers σ) ∧
    (∀ s, fork_of self' s = fork_of self s) ∧
    ((* no lock changes *)
     ((∀ j, lock <$> forks σ' !! j = lock <$> forks σ !! j) ∧
      (∀ s, in_lock s pc' = true → in_lock s pc = true) ∧
      (unexceptional pc → unexceptional pc')) ∨
     (* lock.acquire() *)
     (∃ s f, pc = PCall s CAcquire ∧ pc' = PCall s CSetOwner ∧
        forks σ !! fork_of self s = Some f ∧ lock f = false ∧
        forks σ' = <[fork_of self s := set_lock true f]> (forks σ)) ∨
     (* lock.release() *)
     (∃ s exc f, pc = PExit s exc XRelease ∧
        forks σ !! fork_of self s = Some f ∧
        ((lock f = true ∧ pc' = PExit s exc XClearPicked ∧
          forks σ' = <[fork_of self s := set_lock false f]> (forks σ)) ∨
         (lock f = false ∧ forks σ' = forks σ)))).
Proof.
  unfold phil_step. destruct (philosophers σ !! i) as [[self pc]|] eqn:Hi; [|done].
  simpl. intros H. exists self, pc.
  destruct pc as [| |s k| | | | | |s exc k| |]; simplify_eq.
  1,2,4,5,6,7,8:
    (eexists _, _; split; [done|]; split; [reflexivity|]; split; [done|];
     left; simpl; split; [done|]; split; [|try case_decide; done];
     intros s; try case_decide; destruct s; simpl; done).
  - destruct (forks σ !! fork_of self s) as [f|] eqn:Ef; simpl in H; [|done].
    destruct k; simpl in H.
    + unfold lock_acquire in H. destruct (lock f) eqn:El; simpl in H; [done|].
      simplify_eq. eexists _, _; split; [done|]; split; [reflexivity|].
      split; [done|]. right; left. exists s, f. repeat split; try done.
    + simplify_eq. eexists _, _; split; [done|]; split; [reflexivity|].
      split; [done|]. left. simpl. split; [|split; [|done]].
      * intros j. by apply lock_insert_same with (f := f).
      * intros s'. destruct s, s'; simpl; done.
    + simplify_eq. eexists _, _; split; [done|]; split; [reflexivity|].
      split; [done|]. left. simpl. split; [|split; [|by destruct s]].
      * intros j. by apply lock_insert_same with (f := f).
      * intros s'. destruct s, s'; simpl; done.
  - destruct (forks σ !! fork_of self s) as [f|] eqn:Ef; simpl in H; [|done].
    destruct k; simpl in H.
    + simplify_eq. eexists _, _; split; [done|]; split; [reflexivity|].
      split; [done|]. left. simpl. split; [|split].
      * intros j. by apply lock_insert_same with (f := f).
      * intros s'. destruct (picked_up f), s, s', exc; simpl; done.
      * destruct (picked_up f), s, exc; simpl; done.
    + unfold lock_release in H. destruct (lock f) eqn:El; simpl in H.
      * simplify_eq. eexists _, _; split; [done|]; split; [reflexivity|].
        split; [done|]. right; right. exists s, exc, f.
        split; [done|]. split; [done|]. left. repeat split; try done.
      * simplify_eq. eexists _, _; split; [done|]; split; [reflexivity|].
        split; [done|]. right; right. exists s, exc, f.
        split; [done|]. split; [done|]. right. repeat split; try done.
    + simplify_eq. eexists _, _; split; [done|]; split; [reflexivity|].
      split; [done|]. left. simpl. split; [|split].
      * intros j. by apply lock_insert_same with (f := f).
      * intros s'. destruct s, s', exc; simpl; done.
      * destruct s, exc; simpl; done.
    + simplify_eq. eexists _, _; split; [done|]; split; [reflexivity|].
      split; [done|]. left. simpl. split; [|split].
      * intros j. by apply lock_insert_same with (f := f).
      * intros s'. destruct s, s', exc; simpl; done.
      * destruct s, exc; simpl; done.
Qed.

Lemma entry_after (ps ps' : list (Philosopher * phil_pc)) i x x' j y :
  ps !! i = Some x → ps' = <[i := x']> ps → ps' !! j = Some y →
  (j = i ∧ y = x') ∨ (j ≠ i ∧ ps !! j = Some y).
Proof.
  intros Hi -> Hj. destruct (decide (j = i)) as [->|Hne].
  - left. rewrite list_lookup_insert_eq in Hj by (by eapply lookup_lt_Some).
    by injection Hj as <-.
  - right. by rewrite list_lookup_insert_ne in Hj.
Qed.

Lemma comes_from_step σ σ' i self pc self' pc' (E : nat → side → Prop) :
  philosophers σ !! i = Some (self, pc) →
  philosophers σ' = <[i := (self', pc')]> (philosophers σ) →
  (∀ s, fork_of self' s = fork_of self s) →
  (∀ s, in_lock s pc' = true → in_lock s pc = true ∨ E i s) →
  comes_from σ σ' E.
Proof.
  intros Hi Hps Hfk Hin j selfj pcj Hj.
  destruct (entry_after _ _ _ _ _ _ _ Hi Hps Hj) as [[-> [= -> ->]]|[Hne Hj']].
  - exists self, pc. auto.
  - exists selfj, pcj. auto.
Qed.

Lemma lock_back (fs fs' : list Fork) x f' :
  lock <$> fs' !! x = lock <$> fs !! x → fs' !! x = Some f' →
  ∃ f, fs !! x = Some f ∧ lock f = lock f'.
Proof.
  intros H Hf'. rewrite Hf' in H. simpl in H.
  destruct (fs !! x) as [f|]; simpl in H; [|done].
  exists f. split; [done|]. congruence.
Qed.

Lemma mutex_step i σ σ' :
  mutex_inv σ → phil_step i σ = Some σ' → mutex_inv σ'.
Proof.
  intros (Ha & Hb & Hc & Hd) Hstep.
  destruct (phil_step_lock_cases _ _ _ Hstep)
    as (self & pc & self' & pc' & Hi & Hps & Hfk & Hcases).
  destruct Hcases as [(Hlk & Hsh & Hex)|[(s & f & -> & -> & Hf & Hl & Hfs)
                     |(s & exc & f & -> & Hf & Hrel)]].
  - (* no lock changes *)
    assert (Hcf : comes_from σ σ' (λ _ _, False)).
    { eapply comes_from_step; eauto. }
    split; [|split; [|split]].
    + intros j selfj pcj s0 f' Hj Hin Hf'.
      destruct (Hcf _ _ _ Hj) as (self0 & pc0 & Hj0 & Hfk0 & Hsh0).
      destruct (Hsh0 _ Hin) as [Hin0|[]].
      rewrite Hfk0 in Hf'.
      destruct (lock_back _ _ _ _ (Hlk _) Hf') as (f0 & Hf0 & <-).
      by eapply Ha.
    + intros i1 i2 self1 pc1 self2 pc2 s1 s2 Hne H1 H2 Hin1 Hin2.
      destruct (Hcf _ _ _ H1) as (self1' & pc1' & H1' & Hfk1 & Hsh1).
      destruct (Hcf _ _ _ H2) as (self2' & pc2' & H2' & Hfk2 & Hsh2).
      destruct (Hsh1 _ Hin1) as [Hin1'|[]]. destruct (Hsh2 _ Hin2) as [Hin2'|[]].
      rewrite Hfk1, Hfk2. by eapply Hb.
    + intros j selfj pcj Hj Hin.
      destruct (Hcf _ _ _ Hj) as (self0 & pc0 & Hj0 & Hfk0 & Hsh0).
      destruct (Hsh0 _ Hin) as [Hin0|[]].
      pose proof (Hfk0 L) as HL. pose proof (Hfk0 R) as HR. simpl in HL, HR.
      rewrite HL, HR. by eapply Hc.
    + intros j selfj pcj Hj.
      destruct (entry_after _ _ _ _ _ _ _ Hi Hps Hj) as [[-> [= -> ->]]|[Hne Hj']].
      * apply Hex. by eapply Hd.
      * by eapply Hd.
  - (* lock.acquire() *)
    set (j0 := fork_of self s) in *.
    assert (Hcf : comes_from σ σ' (λ j s', j = i ∧ s' = s)).
    { eapply comes_from_step; eauto.
      intros s'. destruct s, s'; simpl; auto. }
    assert (Hlj0 : (j0 < length (forks σ))%nat) by (by eapply lookup_lt_Some).
    split; [|split; [|split]].
    + intros j selfj pcj s0 f' Hj Hin Hf'.
      destruct (Hcf _ _ _ Hj) as (self0 & pc0 & Hj0 & Hfk0 & Hsh0).
      rewrite Hfk0, Hfs in Hf'.
      destruct (decide (fork_of self0 s0 = j0)) as [Heq|Hne].
      * rewrite Heq, list_lookup_insert_eq in Hf' by done.
        by injection Hf' as <-.
      * rewrite list_lookup_insert_ne in Hf' by done.
        destruct (Hsh0 _ Hin) as [Hin0|[-> ->]]; [by eapply Ha|].
        rewrite Hi in Hj0. injection Hj0 as <- <-. done.
    + intros i1 i2 self1 pc1 self2 pc2 s1 s2 Hne H1 H2 Hin1 Hin2.
      destruct (Hcf _ _ _ H1) as (self1' & pc1' & H1' & Hfk1 & Hsh1).
      destruct (Hcf _ _ _ H2) as (self2' & pc2' & H2' & Hfk2 & Hsh2).
      rewrite Hfk1, Hfk2.
      destruct (Hsh1 _ Hin1) as [Hin1'|[-> ->]];
        destruct (Hsh2 _ Hin2) as [Hin2'|[-> ->]]; try done.
      * by eapply Hb.
      * rewrite Hi in H2'. injection H2' as <- <-. fold j0.
        intros Heq. rewrite <- Heq in Hf.
        pose proof (Ha _ _ _ _ _ H1' Hin1' Hf). congruence.
      * rewrite Hi in H1'. injection H1' as <- <-. fold j0.
        intros Heq. rewrite Heq in Hf.
        pose proof (Ha _ _ _ _ _ H2' Hin2' Hf). congruence.
    + intros j selfj pcj Hj Hin.
      destruct (Hcf _ _ _ Hj) as (self0 & pc0 & Hj0 & Hfk0 & Hsh0).
      pose proof (Hfk0 L) as HL. pose proof (Hfk0 R) as HR. simpl in HL, HR.
      rewrite HL, HR.
      destruct (Hsh0 _ Hin) as [Hin0|[Hji Hs]]; [by eapply Hc|].
      subst j s. rewrite Hi in Hj0. injection Hj0 as <- <-.
      intros Heq. unfold j0 in Hf. simpl in Hf. rewrite <- Heq in Hf.
      assert (lock f = true); [|congruence].
      eapply (Ha i self (PCall R CAcquire) L); done.
    + intros j selfj pcj Hj.
      destruct (entry_after _ _ _ _ _ _ _ Hi Hps Hj) as [[-> [= -> ->]]|[Hne Hj']].
      * done.
      * by eapply Hd.
  - (* lock.release() *)
    set (j0 := fork_of self s) in *.
    assert (Hexc : exc = None).
    { pose proof (Hd _ _ _ Hi) as H. simpl in H. by destruct exc. }
    subst exc.
    assert (Hin : in_lock s (PExit s None XRelease) = true) by (by destruct s).
    assert (Hlf : lock f = true) by (by eapply Ha).
    destruct Hrel as [(_ & -> & Hfs)|[Hl _]]; [|congruence].
    assert (Hcf : comes_from σ σ' (λ _ _, False)).
    { eapply comes_from_step; eauto.
      intros s'. destruct s, s'; simpl; auto. }
    assert (Hlj0 : (j0 < length (forks σ))%nat) by (by eapply lookup_lt_Some).
    split; [|split; [|split]].
    + intros j selfj pcj s0 f' Hj Hin' Hf'.
      destruct (Hcf _ _ _ Hj) as (self0 & pc0 & Hj0 & Hfk0 & Hsh0).
      destruct (Hsh0 _ Hin') as [Hin0|[]].
      rewrite Hfk0, Hfs in Hf'.
      destruct (decide (fork_of self0 s0 = j0)) as [Heq|Hne].
      * exfalso.
        destruct (entry_after _ _ _ _ _ _ _ Hi Hps Hj) as [[-> [= -> ->]]|[Hne Hj']].
        -- rewrite Hi in Hj0. injection Hj0 as <- <-.
           destruct s, s0; simpl in Hin'; try discriminate.
           unfold j0 in Heq. simpl in Heq.
           eapply (Hc i self (PExit R None XRelease)); done.
        -- eapply (Hb j i); [done|exact Hj0|exact Hi|exact Hin0|exact Hin|].
           exact Heq.
      * rewrite list_lookup_insert_ne in Hf' by done. by eapply Ha.
    + intros i1 i2 self1 pc1 self2 pc2 s1 s2 Hne H1 H2 Hin1 Hin2.
      destruct (Hcf _ _ _ H1) as (self1' & pc1' & H1' & Hfk1 & Hsh1).
      destruct (Hcf _ _ _ H2) as (self2' & pc2' & H2' & Hfk2 & Hsh2).
      destruct (Hsh1 _ Hin1) as [Hin1'|[]]. destruct (Hsh2 _ Hin2) as [Hin2'|[]].
      rewrite Hfk1, Hfk2. by eapply Hb.
    + intros j selfj pcj Hj Hin'.
      destruct (Hcf _ _ _ Hj) as (self0 & pc0 & Hj0 & Hfk0 & Hsh0).
      destruct (Hsh0 _ Hin') as [Hin0|[]].
      pose proof (Hfk0 L) as HL. pose proof (Hfk0 R) as HR. simpl in HL, HR.
      rewrite HL, HR. by eapply Hc.
    + intros j selfj pcj Hj.
      destruct (entry_after _ _ _ _ _ _ _ Hi Hps Hj) as [[-> [= -> ->]]|[Hne Hj']].
      * done.
      * by eapply Hd.
Qed.

Lemma mutex_run sched : ∀ σ σ',
  no_watchdog sched = true → mutex_inv σ → run sched σ = Some σ' → mutex_inv σ'.
Proof.
  induction sched as [|[t r] sched IH]; intros σ σ' Hnw Hinv; simpl.
  - by intros [= <-].
  - simpl in Hnw. apply andb_true_iff in Hnw as [Ht Hnw].
    destruct t as [i|]; [|discriminate Ht]. simpl.
    destruct (phil_step i σ) as [σ1|] eqn:E; simpl; [|done].
    intros Hrun. eapply IH; [done| |done]. by eapply mutex_step.
Qed.

Lemma mutex_start n m σ0 : main_state n m = Ok σ0 → mutex_inv σ0.
Proof.
  intros Hmain.
  assert (H : ∀ i self pc, philosophers σ0 !! i = Some (self, pc) → pc = PLoop).
  { intros i self pc Hi.
    by destruct (main_state_philosopher _ _ _ _ _ Hmain Hi) as [? _]. }
  split; [|split; [|split]].
  - intros i self pc s f Hi Hin. rewrite (H _ _ _ Hi) in Hin. done.
  - intros i1 i2 self1 pc1 self2 pc2 s1 s2 _ H1 _ Hin. rewrite (H _ _ _ H1) in Hin.
    done.
  - intros i self pc Hi Hin. rewrite (H _ _ _ Hi) in Hin. done.
  - intros i self pc Hi. by rewrite (H _ _ _ Hi).
Qed.

(** X9: mutual exclusion without the watchdog.  In every state of every
    run of the started table in which only philosophers move, no two
    philosophers are inside the lock of the same fork; two philosophers
    that both have [eating] true have no fork in common; and no
    philosopher has been ended by an exception ([lock.release()] never
    finds its lock free). *)
Theorem mutual_exclusion_without_watchdog (n m : Z) (σ0 σ : State)
    (sched : schedule) :
  main_state n m = Ok σ0 → no_watchdog sched = true → run sched σ0 = Some σ →
  exclusive σ ∧
  (∀ i1 i2 self1 pc1 self2 pc2 s1 s2,
     i1 ≠ i2 →
     philosophers σ !! i1 = Some (self1, pc1) →
     philosophers σ !! i2 = Some (self2, pc2) →
     eating self1 = true → eating self2 = true →
     fork_of self1 s1 ≠ fork_of self2 s2) ∧
  (∀ i self pc e, philosophers σ !! i = Some (self, pc) → pc ≠ PCrashed e).
Proof.
  intros Hmain Hnw Hrun.
  destruct (mutex_run _ _ _ Hnw (mutex_start _ _ _ Hmain) Hrun)
    as (Ha & Hb & Hc & Hd).
  split; [done|]. split.
  - assert (Hin : ∀ i self pc s, philosophers σ !! i = Some (self, pc) →
              eating self = true → in_lock s pc = true).
    { intros i self pc s Hi He.
      assert (is_Some (philosophers σ0 !! i)) as [x0 Hi0].
      { apply lookup_lt_is_Some.
        rewrite <- (run_philosophers_length _ _ _ Hrun). by eapply lookup_lt_Some. }
      destruct (main_state_philosopher _ _ _ _ _ Hmain Hi0) as (_ & _ & He0).
      assert (Hin0 : eating_inside x0).
      { intros H. rewrite He0 in H. discriminate. }
      destruct (eating_inside_run _ _ _ _ _ Hi0 Hin0 Hrun) as (x & Hx & Hinx).
      rewrite Hi in Hx. injection Hx as <-.
      destruct (Hinx He) as [Hpc|Hpc]; simpl in Hpc; subst pc; by destruct s. }
    intros i1 i2 self1 pc1 self2 pc2 s1 s2 Hne H1 H2 He1 He2.
    eapply Hb; eauto.
  - intros i self pc e Hi ->. exact (Hd _ _ _ Hi).
Qed.

Lemma mutual_exclusion_without_watchdog_witness :
  ∃ σ, run (solo 0 11 ++ solo 2 11) table = Some σ ∧
       pc_of 0 σ ≠ Some (PCrashed RuntimeError).
Proof.
  destruct (run (solo 0 11 ++ solo 2 11) table) as [σ|] eqn:Hrun;
    [|vm_compute in Hrun; discriminate Hrun].
  exists σ. split; [reflexivity|].
  destruct (mutual_exclusion_without_watchdog 5 7 table σ
              (solo 0 11 ++ solo 2 11) eq_refl eq_refl Hrun) as (_ & _ & H).
  intros Hpc. unfold pc_of in Hpc.
  destruct (philosophers σ !! 0%nat) as [[self pc]|] eqn:E; [|discriminate Hpc].
  simpl in Hpc. injection Hpc as ->. by eapply H.
Defined.

(** X10: with the watchdog two neighbours can eat at once.  The table of
    [main] can reach a state in which philosophers 0 and 4 both have
    [eating] true although fork 0 is the left fork of one and the right
    fork of the other: in the run [neighbours_eat] philosopher 0 eats
    without knowing that the watchdog has released its left fork, and
    philosopher 4 has since taken that fork. *)
Lemma neighbours_eat_together :
  ∃ sched σ self0 self4,
    run sched table = Some σ ∧
    philosophers σ !! 0%nat = Some (self0, PSleepEat) ∧
    philosophers σ !! 4%nat = Some (self4, PSleepEat) ∧
    eating self0 = true ∧ eating self4 = true ∧
    left_fork self0 = right_fork self4 ∧
    count_eating (philosophers σ) = 2.
Proof.
  exists neighbours_eat. eexists _, _, _. split; [vm_compute; reflexivity|].
  split; [vm_compute; reflexivity|].
  split; [vm_compute; reflexivity|]. repeat split.
Qed.

(** ** A lock that is never released *)

Lemma lost_after_phil j σ σ' i x' :
  lost j σ → forks σ' !! j = forks σ !! j →
  philosophers σ' = <[i := x']> (philosophers σ) →
  writes_fork j x'.1 x'.2 = false → watchdog σ' = watchdog σ →
  lost j σ'.
Proof.
  intros (Hf & Hnw & Hwd) Hfj Hps Hx Hw. split; [|split].
  - by rewrite Hfj.
  - intros k self pc Hk. rewrite Hps in Hk.
    destruct (decide (k = i)) as [->|Hne].
    + destruct (decide (i < length (philosophers σ))%nat).
      * rewrite list_lookup_insert_eq in Hk by done. injection Hk as ->. exact Hx.
      * rewrite list_insert_ge in Hk by lia. by eapply Hnw.
    + rewrite list_lookup_insert_ne in Hk by done. by eapply Hnw.
  - by rewrite Hw.
Qed.

Lemma lost_after_wd j σ σ' :
  lost j σ → forks σ' !! j = forks σ !! j →
  philosophers σ' = philosophers σ →
  wd_writes_fork j (watchdog σ') = false →
  lost j σ'.
Proof.
  intros (Hf & Hnw & Hwd) Hfj Hps Hw.
  split; [by rewrite Hfj|]. split; [by rewrite Hps|done].
Qed.

Lemma insert_other {A} (l : list A) a j x : a ≠ j → <[a := x]> l !! j = l !! j.
Proof. apply list_lookup_insert_ne. Qed.

Lemma lost_phil_step j i σ σ' :
  lost j σ → phil_step i σ = Some σ' → lost j σ'.
Proof.
  intros Hlost Hstep. pose proof Hlost as ((f & Hf & Hl & Hp) & Hnw & Hwd).
  unfold phil_step in Hstep.
  destruct (philosophers σ !! i) as [[self pc]|] eqn:Hi; [|done].
  simpl in Hstep. pose proof (Hnw _ _ _ Hi) as Hwi.
  destruct pc as [| |s k| | | | | |s exc k| |]; simplify_eq;
    try (eapply lost_after_phil; [done|done|reflexivity|simpl; try case_decide; done|done]).
  - destruct (forks σ !! fork_of self s) as [g|] eqn:Eg; simpl in Hstep; [|done].
    destruct (decide (fork_of self s = j)) as [Hj|Hj].
    + destruct k; simpl in Hwi, Hstep.
      * rewrite Hj, Hf in Eg. injection Eg as <-.
        unfold lock_acquire in Hstep. rewrite Hl in Hstep. done.
      * rewrite bool_decide_eq_true_2 in Hwi by done. done.
      * rewrite bool_decide_eq_true_2 in Hwi by done. done.
    + destruct (call_step k (p_index self) g) as [[g' k']|] eqn:Ec;
        simpl in Hstep; [|done].
      simplify_eq.
      eapply lost_after_phil; [done| |reflexivity| |done].
      * simpl. by apply list_lookup_insert_ne.
      * simpl. destruct k; simpl in Ec; simplify_eq; simpl;
          try (by rewrite bool_decide_eq_false_2).
        -- destruct (lock_acquire g); simpl in Ec; simplify_eq. simpl.
           by rewrite bool_decide_eq_false_2.
        -- by destruct s.
  - destruct (forks σ !! fork_of self s) as [g|] eqn:Eg; simpl in Hstep; [|done].
    destruct (decide (fork_of self s = j)) as [Hj|Hj].
    + destruct k; simpl in Hwi, Hstep;
        try (rewrite bool_decide_eq_true_2 in Hwi by done; done).
      rewrite Hj, Hf in Eg. injection Eg as <-. rewrite Hp in Hstep.
      simplify_eq.
      eapply lost_after_phil; [done| |reflexivity| |done].
      * simpl. by rewrite list_insert_id.
      * simpl. destruct s, exc; done.
    + destruct (exit_step k g) as [[g' k']|e] eqn:Ex; simplify_eq.
      * eapply lost_after_phil; [done| |reflexivity| |done].
        -- simpl. by apply list_lookup_insert_ne.
        -- simpl. destruct k; simpl in Ex.
           ++ simplify_eq. destruct (picked_up g'); simpl;
                [by rewrite bool_decide_eq_false_2|by destruct s, exc].
           ++ destruct (lock_release g); simpl in Ex; simplify_eq. simpl.
              by rewrite bool_decide_eq_false_2.
           ++ simplify_eq. simpl. by rewrite bool_decide_eq_false_2.
           ++ simplify_eq. by destruct s, exc.
      * eapply lost_after_phil; [done|done|reflexivity| |done].
        simpl. by destruct s.
Qed.

Lemma lost_wd_step j r σ σ' :
  lost j σ → wd_step r σ = Some σ' → lost j σ'.
Proof.
  intros Hlost. pose proof Hlost as ((f & Hf & Hl & Hp) & Hnw & Hwd).
  destruct σ as [fs ps [st pc]]. rewrite wd_step_mk. simpl in *.
  unfold wd_writes_fork in Hwd. simpl in Hwd. intros H.
  destruct pc; simplify_eq;
    try (eapply lost_after_wd; [done|done|done|simpl; try case_decide; done]).
  - destruct (randint _ _); [case_decide|]; simplify_eq;
      by eapply lost_after_wd.
  - destruct (py_pos _ _); simplify_eq; by eapply lost_after_wd.
  - destruct (fs !! fork) as [g|] eqn:Eg; simpl in H; [|done].
    destruct (decide (fork = j)) as [Hj|Hj].
    + destruct k; simpl in Hwd, H;
        try (rewrite bool_decide_eq_true_2 in Hwd by done; done).
      rewrite Hj, Hf in Eg. injection Eg as <-. rewrite Hp in H. simplify_eq.
      eapply lost_after_wd; [done| |done|done].
      simpl. by rewrite list_insert_id.
    + destruct (exit_step k g) as [[g' k']|e] eqn:Ex; simplify_eq.
      * eapply lost_after_wd; [done| |done|].
        -- simpl. by apply list_lookup_insert_ne.
        -- unfold wd_writes_fork. simpl. destruct k; simpl in Ex.
           ++ simplify_eq. destruct (picked_up g'); simpl;
                [by rewrite bool_decide_eq_false_2|done].
           ++ destruct (lock_release g); simpl in Ex; simplify_eq. simpl.
              by rewrite bool_decide_eq_false_2.
           ++ simplify_eq. simpl. by rewrite bool_decide_eq_false_2.
           ++ by simplify_eq.
      * by eapply lost_after_wd.
Qed.

Lemma lost_step j t r σ σ' : lost j σ → step t r σ = Some σ' → lost j σ'.
Proof.
  destruct t as [i|]; simpl; [apply lost_phil_step | apply lost_wd_step].
Qed.

Lemma lost_blocks j σ i self s r :
  lost j σ → philosophers σ !! i = Some (self, PCall s CAcquire) →
  fork_of self s = j → step (TPhil i) r σ = None.
Proof.
  intros ((f & Hf & Hl & _) & _) Hi Hj. simpl. unfold phil_step.
  rewrite Hi. simpl. rewrite Hj, Hf. simpl.
  unfold lock_acquire. by rewrite Hl.
Qed.

(** X11: a lock the code never releases.  Once the lock of a fork is held
    while the fork is not marked as picked up and no thread is in the
    middle of a [__call__] or [__exit__] on it, this stays so in every
    run: [__exit__], also the forced one of the watchdog, finds
    [picked_up] false and does not release, and [lock.acquire()] cannot
    succeed; every philosopher waiting for that fork waits forever. *)
Theorem lost_lock_is_permanent (j : nat) (sched : schedule) (σ σ' : State) :
  lost j σ → run sched σ = Some σ' →
  lost j σ' ∧
  ∀ i self s,
    philosophers σ !! i = Some (self, PCall s CAcquire) → fork_of self s = j →
    philosophers σ' !! i = Some (self, PCall s CAcquire).
Proof.
  revert σ. induction sched as [|[t r] sched IH]; intros σ Hlost; simpl.
  - intros [= <-]. done.
  - destruct (step t r σ) as [σ1|] eqn:Hstep; simpl; [|done].
    intros Hrun.
    destruct (IH σ1 (lost_step _ _ _ _ _ Hlost Hstep) Hrun) as [Hlost' Hwait].
    split; [done|].
    intros i self s Hi Hj. apply Hwait; [|done].
    destruct (decide (t = TPhil i)) as [->|Hne].
    + by rewrite (lost_blocks _ _ _ _ _ r Hlost Hi Hj) in Hstep.
    + by rewrite (step_other_philosopher _ _ _ _ _ Hstep Hne).
Qed.

Lemma lost_lock_is_permanent_witness :
  ∃ σ σ',
    no_watchdog release_race = true ∧
    run release_race table = Some σ ∧
    run (solo 1 2 ++ replicate 87 (TWatchdog, 1)) σ = Some σ' ∧
    lost 1 σ' ∧
    philosophers σ' !! 1%nat = Some (mkPhilosopher 1 1 2 6 false, PCall L CAcquire).
Proof.
  let s0 := eval vm_compute in (run release_race table) in
  let s1 := eval vm_compute in (run (release_race ++ solo 1 2) table) in
  let s2 := eval vm_compute in
    (run (release_race ++ solo 1 2 ++ replicate 87 (TWatchdog, 1)) table) in
  match constr:((s0, s1, s2)) with
  | (Some ?a, Some ?b, Some ?c) =>
      exists a, c;
      assert (Hlost : lost 1 b);
      [|assert (Hrun : run (replicate 87 (TWatchdog, 1)) b = Some c);
        [vm_compute; reflexivity|];
        destruct (lost_lock_is_permanent 1 _ b c Hlost Hrun) as [Hl Hw]]
  end.
  - split; [|split; [|reflexivity]].
    + eexists. split; [reflexivity|]. split; reflexivity.
    + intros i self pc Hi.
      repeat (destruct i as [|i]; simpl in Hi; simplify_eq; try reflexivity).
  - split; [reflexivity|].
    split; [vm_compute; reflexivity|].
    split; [vm_compute; reflexivity|].
    split; [exact Hl|].
    exact (Hw 1%nat _ L eq_refl eq_refl).
Defined.

(** ** An exception in [__exit__] *)

Lemma ended_stays i self e sched σ σ' :
  philosophers σ !! i = Some (self, PCrashed e) → run sched σ = Some σ' →
  philosophers σ' !! i = Some (self, PCrashed e).
Proof.
  revert σ. induction sched as [|[t r] sched IH]; intros σ Hi; simpl.
  - by intros [= <-].
  - destruct (step t r σ) as [σ1|] eqn:Hstep; simpl; [|done].
    apply IH.
    destruct (decide (t = TPhil i)) as [->|Hne].
    + simpl in Hstep. unfold phil_step in Hstep. rewrite Hi in Hstep. done.
    + by rewrite (step_other_philosopher _ _ _ _ _ Hstep Hne).
Qed.

(** X12: what a [RuntimeError] of [lock.release()] does to a philosopher.
    When a philosopher is about to release its right fork and the lock of
    that fork is already free (the watchdog's forced release got there
    first), the exception leaves the inner [with], the outer [with] still
    releases the left fork, and the thread ends with the exception: after
    5 steps of its own the left fork is free, the right fork and the other
    threads are untouched, and in every later run the philosopher stays
    ended, its remaining units uneaten. *)
Theorem release_error_ends_thread (i : nat) (σ : State) (self : Philosopher)
    (fl fr : Fork) :
  philosophers σ !! i = Some (self, PExit R None XRelease) →
  forks σ !! right_fork self = Some fr → lock fr = false →
  forks σ !! left_fork self = Some fl → picked_up fl = true → lock fl = true →
  ∃ σ',
    run (solo i 5) σ = Some σ' ∧
    forks σ' = <[left_fork self := mkFork (index fl) false false (-1)]> (forks σ) ∧
    philosophers σ' = <[i := (self, PCrashed RuntimeError)]> (philosophers σ) ∧
    watchdog σ' = watchdog σ ∧
    ∀ sched σ'', run sched σ' = Some σ'' →
      philosophers σ'' !! i = Some (self, PCrashed RuntimeError).
Proof.
  destruct σ as [fs ps w]. simpl. intros Hi Hr Hlr Hl Hp Hll.
  assert (Hli : (i < length ps)%nat) by (by eapply lookup_lt_Some).
  assert (H1 : runs (mkState fs ps w) [(TPhil i, 0)] [LPhil i (PExit R None XRelease)]
                 (mkState fs (<[i := (self, PExit L (Some RuntimeError) XTest)]> ps) w)).
  { apply runs_one; simpl; [by rewrite Hi|].
    unfold phil_step. simpl. rewrite Hi. simpl. rewrite Hr. simpl.
    unfold lock_release. rewrite Hlr. reflexivity. }
  assert (H2 := exit_phase i L (Some RuntimeError) fs
                  (<[i := (self, PExit L (Some RuntimeError) XTest)]> ps) w self fl
                  ltac:(look) Hl Hp Hll).
  destruct (runs_app _ _ _ _ _ _ _ H1 H2) as [Hrun _].
  rewrite list_insert_insert_eq in Hrun.
  eexists. split; [exact Hrun|]. simpl.
  split; [done|]. split; [done|]. split; [done|].
  intros sched σ'' Hrun'. eapply ended_stays; [|exact Hrun']. simpl. look.
Qed.

Lemma release_error_ends_thread_witness :
  ∃ σ σ',
    run release_crash table = Some σ ∧
    run (solo 0 5) σ = Some σ' ∧
    philosophers σ' !! 0%nat = Some (mkPhilosopher 0 0 1 6 false, PCrashed RuntimeError).
Proof.
  let s0 := eval vm_compute in (run release_crash table) in
  match s0 with
  | Some ?a =>
      exists a;
      destruct (release_error_ends_thread 0 a (mkPhilosopher 0 0 1 6 false)
                  (mkFork 0 true true 0) (mkFork 1 false true 0)
                  eq_refl eq_refl eq_refl eq_refl eq_refl eq_refl)
        as (σ' & Hrun & _ & Hps & _)
  end.
  exists σ'. split; [vm_compute; reflexivity|]. split; [exact Hrun|].
  rewrite Hps. reflexivity.
Defined.
